(** * SAP Sales Cloud V2 -> OData proxy: a shallow embedding of the TypeScript sources

    The development follows the layout of the repository:

    - [Js]          the fragment of JavaScript the sources rely on (completions,
                    errors, truthiness, [parseInt], [trim], [split], regular
                    expressions that are sequences of character classes);
    - [Constants]   [src/constants.ts];
    - [Security]    [src/utils/security.ts];
    - [Parser]      [src/odata/parser.ts];
    - [Client]      [src/salescloud/client.ts];
    - [Keyset], [PaginationCache], [CollectionCache]
                    [src/odata/keyset-pagination.ts], [src/odata/pagination-cache.ts]
                    and the collection cache for flattened entity sets;
    - [FlatteningCache]
                    the collection cache behind the published declarations,
                    as the specification describes it;
    - [SecurityUtils], [FilterSyntax], [BasicAuth], [ClientEntity]
                    [secureCompare], [combineFilters] and [maskSensitive],
                    [validateFilter], the basic-auth callback, [fetchEntity];
    - [ObjectUtils], [Async], [ConfigEnv]
                    [src/utils/object.ts], [waitWithTimeout] and [src/config.ts].

    Calls to the logger are left out, except where evaluating the argument
    of one can throw.

    JavaScript strings are modelled as [string], a sequence of 8-bit code
    units, so [String.length] is the [.length] of the source.  JavaScript
    numbers that the code only produces from [parseInt] or uses as counters are
    modelled as [Z]: every comparison the sources make on them ([> 0], [>= 0],
    [Math.min _ 999], [< SC_MAX_RETRIES], [>= 500]) gives the same answer on the
    exact integer and on its nearest double. *)

From Stdlib Require Import ZArith NArith Ascii Bool Lia.
From Equations Require Import Equations.
From stdpp Require Import gmap strings list pretty.

Local Open Scope Z_scope.

(* ================================================================== *)
(** * A fragment of JavaScript *)
(* ================================================================== *)

Module Js.

(** The constructors the sources distinguish with [instanceof] and [.name]. *)
Inductive ErrorClass : Set :=
| ClsError        (* new Error(...) *)
| ClsTypeError    (* instanceof TypeError: how fetch reports a network failure *)
| ClsAbortError   (* name === 'AbortError': the AbortController fired *)
| ClsSyntaxError. (* JSON.parse on a malformed body *)

Record JsError : Set := mkError { cls : ErrorClass; message : string }.

Definition Error (msg : string) : JsError := mkError ClsError msg.

(** The outcome of evaluating a call: a value, or a thrown error. *)
Inductive completion (A : Type) : Type :=
| Return (a : A)
| Throw (e : JsError).
Arguments Return {A} a.
Arguments Throw {A} e.

Definition bind {A B} (c : completion A) (k : A -> completion B) : completion B :=
  match c with
  | Return a => k a
  | Throw e => Throw e
  end.

Definition returns {A} (c : completion A) : Prop := exists a, c = Return a.
Definition throws {A} (c : completion A) : Prop := exists e, c = Throw e.

(** A settled promise, as [await] observes it. *)
Inductive promise (A : Type) : Type :=
| Resolved (a : A)
| Rejected (e : JsError).
Arguments Resolved {A} a.
Arguments Rejected {A} e.

(** An [async] function whose body is the completion [c]. *)
Definition async {A} (c : completion A) : promise A :=
  match c with
  | Return a => Resolved a
  | Throw e => Rejected e
  end.

(** Truthiness of a [string | undefined]. *)
Definition truthy (v : option string) : bool :=
  match v with
  | Some (String _ _) => true
  | _ => false
  end.

(** ** Characters *)

Definition code (c : ascii) : N := N_of_ascii c.

Definition between (lo hi c : ascii) : bool :=
  ((code lo <=? code c) && (code c <=? code hi))%N.

Definition is_char (a c : ascii) : bool := Ascii.eqb a c.

Definition is_digit (c : ascii) : bool := between "0" "9" c.
Definition is_lower (c : ascii) : bool := between "a" "z" c.
Definition is_upper (c : ascii) : bool := between "A" "Z" c.

(** WhiteSpace and LineTerminator code units below 256: TAB, LF, VT, FF, CR,
    SP and NBSP. *)
Definition is_space (c : ascii) : bool :=
  ((9 <=? code c) && (code c <=? 13) || (code c =? 32) || (code c =? 160))%N.

(** ** String helpers *)

Fixpoint trimStart (s : string) : string :=
  match s with
  | String c s' => if is_space c then trimStart s' else s
  | EmptyString => EmptyString
  end.

Definition rev_string (s : string) : string :=
  String.string_of_list_ascii (rev (String.list_ascii_of_string s)).

Definition trim (s : string) : string :=
  rev_string (trimStart (rev_string (trimStart s))).

(** [s.split(sep)] for a one-character separator. *)
Fixpoint split (sep : ascii) (s : string) : list string :=
  match s with
  | EmptyString => [EmptyString]
  | String c s' =>
      if Ascii.eqb c sep then EmptyString :: split sep s'
      else match split sep s' with
           | w :: ws => String c w :: ws
           | [] => [String c EmptyString]
           end
  end.

(** [String.prototype.toLowerCase] on code units below 256. *)
Definition lower_char (c : ascii) : ascii :=
  let n := code c in
  if ((65 <=? n) && (n <=? 90) || (192 <=? n) && (n <=? 222) && negb (n =? 215))%N
  then ascii_of_N (n + 32) else c.

Fixpoint toLowerCase (s : string) : string :=
  match s with
  | EmptyString => EmptyString
  | String c s' => String (lower_char c) (toLowerCase s')
  end.

(** ** [parseInt(s, 10)]

    Leading white space is skipped, one sign is read, then the longest run of
    decimal digits; [None] stands for NaN (no digit where one is needed). *)

Definition digit_value (c : ascii) : Z := Z.of_N (code c) - 48.

Fixpoint digits_value (acc : Z) (s : string) : Z :=
  match s with
  | String c s' => if is_digit c then digits_value (10 * acc + digit_value c) s' else acc
  | EmptyString => acc
  end.

Definition parse_digits (s : string) : option Z :=
  match s with
  | String c _ => if is_digit c then Some (digits_value 0 s) else None
  | EmptyString => None
  end.

Definition parseInt (s : string) : option Z :=
  match trimStart s with
  | String "-" r => Z.opp <$> parse_digits r
  | String "+" r => parse_digits r
  | r => parse_digits r
  end.

(** ** Regular expressions

    Every unanchored pattern of the sources is a fixed-length sequence of
    character classes; [test] looks for it at every position. *)

Definition CharClass : Type := ascii -> bool.
Definition RegExp : Type := list CharClass.

Fixpoint match_here (p : RegExp) (s : string) : bool :=
  match p, s with
  | [], _ => true
  | cl :: p', String c s' => cl c && match_here p' s'
  | _ :: _, EmptyString => false
  end.

Fixpoint test (p : RegExp) (s : string) : bool :=
  match_here p s ||
  match s with
  | String _ s' => test p s'
  | EmptyString => false
  end.

End Js.

Import Js.

(* ================================================================== *)
(** * src/constants.ts *)
(* ================================================================== *)

Module Constants.

Definition SC_MAX_PAGE_SIZE : Z := 999.
Definition SC_MAX_SKIP : Z := 10000.
Definition DEFAULT_PAGE_SIZE : Z := SC_MAX_PAGE_SIZE.
Definition MAX_PAGE_SIZE : Z := SC_MAX_PAGE_SIZE.
Definition SC_MAX_RETRIES : Z := 2.
Definition SC_RETRY_BASE_DELAY_MS : Z := 500.
Definition COLLECTION_CACHE_WAIT_TIMEOUT_MS : Z := 300000.

End Constants.

Import Constants.

(* ================================================================== *)
(** * src/utils/security.ts *)
(* ================================================================== *)

Module Security.

Definition MAX_FILTER_LENGTH : nat := 4096.
Definition MAX_SELECT_LENGTH : nat := 2048.
Definition MAX_ORDERBY_LENGTH : nat := 512.
Definition MAX_SKIPTOKEN_LENGTH : nat := 1024.

(** [[0-9a-f]] under the [i] flag. *)
Definition is_hex (c : ascii) : bool :=
  is_digit c || between "a" "f" c || between "A" "F" c.

(** [x] under the [i] flag. *)
Definition is_x (c : ascii) : bool := is_char "x" c || is_char "X" c.

Definition DANGEROUS_FILTER_PATTERNS : list RegExp :=
  [ [is_char ";"];                         (* /;/   *)
    [is_char "-"; is_char "-"];            (* /--/  *)
    [is_char "/"; is_char "*"];            (* /\/\*/ *)
    [is_char "*"; is_char "/"];            (* /\*\// *)
    [is_char "000"];                       (* /\x00/ *)
    [is_char "\"; is_x; is_hex; is_hex] ]. (* /\\x[0-9a-f]{2}/i *)

(** The [for] loop of [isDangerousFreeString]: the first pattern that matches
    returns [false]. *)
Fixpoint dangerous_free_loop (ps : list RegExp) (value : string) : bool :=
  match ps with
  | [] => true
  | p :: ps' => if test p value then false else dangerous_free_loop ps' value
  end.

Definition isDangerousFreeString (value : string) : bool :=
  dangerous_free_loop DANGEROUS_FILTER_PATTERNS value.

Definition isFilterContentSafe (filter : string) : bool :=
  isDangerousFreeString filter.

Record Sanitized : Set :=
  { valid : bool; sanitized : string; error : option string }.

(** [value.replace(/'/g, "''")] *)
Fixpoint escape_quotes (value : string) : string :=
  match value with
  | EmptyString => EmptyString
  | String c s =>
      if is_char "'" c then String "'" (String "'" (escape_quotes s))
      else String c (escape_quotes s)
  end.

Definition sanitizeFilterValue (value : string) : Sanitized :=
  if negb (isDangerousFreeString value) then
    {| valid := false; sanitized := ""; error := Some "Invalid characters in filter value" |}
  else if (100 <? String.length value)%nat then
    {| valid := false; sanitized := ""; error := Some "Filter value too long" |}
  else
    {| valid := true; sanitized := escape_quotes value; error := None |}.

Inductive KeysetOperator : Set := gt | lt.

Definition operator_text (op : KeysetOperator) : string :=
  match op with gt => "gt" | lt => "lt" end.

(** [/^[a-zA-Z_][a-zA-Z0-9_]*$/] (no [m] flag: [$] is the end of the input). *)
Definition is_name_start (c : ascii) : bool :=
  is_lower c || is_upper c || is_char "_" c.

Definition is_name_char (c : ascii) : bool :=
  is_lower c || is_upper c || is_digit c || is_char "_" c.

Fixpoint all_chars (cl : CharClass) (s : string) : bool :=
  match s with
  | EmptyString => true
  | String c s' => cl c && all_chars cl s'
  end.

Definition field_name_test (fieldName : string) : bool :=
  match fieldName with
  | String c rest => is_name_start c && all_chars is_name_char rest
  | EmptyString => false
  end.

Definition buildKeysetCondition
    (fieldName : string) (operator : KeysetOperator) (value : string)
  : completion string :=
  if negb (field_name_test fieldName) then
    Throw (Error "Invalid field name for keyset pagination")
  else
    let r := sanitizeFilterValue value in
    if negb (valid r) then
      Throw (Error (if truthy (error r) then default "" (error r)
                    else "Invalid value for keyset pagination"))
    else
      Return (fieldName +:+ " " +:+ operator_text operator +:+ " '"
                +:+ sanitized r +:+ "'").

End Security.

(* ================================================================== *)
(** * src/salescloud/types.ts *)
(* ================================================================== *)

(** [ODataQueryOptions]: every field is optional. *)
Module ODataQueryOptions.
Record t : Type :=
  { select : option (list string);
    filter : option string;
    top : option Z;
    skip : option Z;
    orderby : option string;
    count : option bool;
    expand : option (list string);
    skiptoken : option string }.
End ODataQueryOptions.

(** [ScQueryParams], over the type [number] of JavaScript numbers. *)
Module ScQueryParams.
Record t (number : Type) : Type :=
  { select : option string;
    filter : option string;
    top : option number;
    skip : option number;
    orderby : option string;
    count : option bool;
    expand : option string }.
Arguments select {number} _.
Arguments filter {number} _.
Arguments top {number} _.
Arguments skip {number} _.
Arguments orderby {number} _.
Arguments count {number} _.
Arguments expand {number} _.
End ScQueryParams.

(** The fields of [EntityDefinition] that the pagination code is handed. *)
Module EntityDefinition.
Record t : Type :=
  { name : string;
    setName : string;
    endpoint : string;
    keyProperty : string;
    scKeyProperty : string;
    isVirtualEntity : option bool;
    parentEntitySet : option string;
    sourceProperty : option string;
    parentKeyProperty : option string }.
End EntityDefinition.

(** A value of a [Record<string, unknown>]. *)
Inductive JsValue : Type :=
| JsNull
| JsBoolean (b : bool)
| JsNumber (n : Z)
| JsString (s : string).

(* ================================================================== *)
(** * src/odata/parser.ts *)
(* ================================================================== *)

Module Parser.

(** A value of the raw query object: [string | string[]]; a key that is
    missing, or bound to [undefined], has no entry. *)
Inductive QueryValue : Type :=
| QString (s : string)
| QArray (l : list string).

(** [getQueryParam]: the first element of an array, the string itself
    otherwise. *)
Definition getQueryParam (query : gmap string QueryValue) (key : string)
  : option string :=
  match query !! key with
  | Some (QArray l) => head l
  | Some (QString s) => Some s
  | None => None
  end.

(** One length check of [validateQueryLimits]. *)
Definition over_limit (v : option string) (limit : nat) : bool :=
  truthy v && (limit <? String.length (default "" v))%nat.

Definition validateQueryLimits (query : gmap string QueryValue)
  : option string :=
  let getParam := getQueryParam query in
  if over_limit (getParam "$filter") Security.MAX_FILTER_LENGTH then
    Some "$filter exceeds maximum length of 4096 characters"
  else if over_limit (getParam "$select") Security.MAX_SELECT_LENGTH then
    Some "$select exceeds maximum length of 2048 characters"
  else if over_limit (getParam "$orderby") Security.MAX_ORDERBY_LENGTH then
    Some "$orderby exceeds maximum length of 512 characters"
  else if over_limit (getParam "$skiptoken") Security.MAX_SKIPTOKEN_LENGTH then
    Some "$skiptoken exceeds maximum length of 1024 characters"
  else None.

(** [if (v) options.field = v]. *)
Definition when_truthy (v : option string) : option string :=
  if truthy v then v else None.

(** [v.split(',').map((s) => s.trim())] under [if (v)]. *)
Definition comma_list (v : option string) : option (list string) :=
  if truthy v then Some (map trim (split "," (default "" v))) else None.

(** The [$top] block. *)
Definition parse_top (top : option string) : option Z :=
  if truthy top then
    match parseInt (default "" top) with
    | Some parsed =>
        if 0 <? parsed then Some (Z.min parsed MAX_PAGE_SIZE) else None
    | None => None
    end
  else Some DEFAULT_PAGE_SIZE.

(** The [$skip] block. *)
Definition parse_skip (skip : option string) : option Z :=
  if truthy skip then
    match parseInt (default "" skip) with
    | Some parsed => if 0 <=? parsed then Some parsed else None
    | None => None
    end
  else None.

(** The [$count] block: only a case-insensitive ["false"] turns it off. *)
Definition parse_count (count : option string) : option bool :=
  match toLowerCase <$> count with
  | Some "true" => Some true
  | Some "false" => Some false
  | _ => Some true
  end.

Definition parseODataQuery (query : gmap string QueryValue)
  : completion ODataQueryOptions.t :=
  let validationError := validateQueryLimits query in
  if truthy validationError then Throw (Error (default "" validationError))
  else
    Return
      {| ODataQueryOptions.select := comma_list (getQueryParam query "$select");
         ODataQueryOptions.filter := when_truthy (getQueryParam query "$filter");
         ODataQueryOptions.top := parse_top (getQueryParam query "$top");
         ODataQueryOptions.skip := parse_skip (getQueryParam query "$skip");
         ODataQueryOptions.orderby := when_truthy (getQueryParam query "$orderby");
         ODataQueryOptions.count := parse_count (getQueryParam query "$count");
         ODataQueryOptions.expand := comma_list (getQueryParam query "$expand");
         ODataQueryOptions.skiptoken := when_truthy (getQueryParam query "$skiptoken") |}.

Definition parseSkiptoken (query : gmap string QueryValue) : option string :=
  getQueryParam query "$skiptoken".

End Parser.

(* ================================================================== *)
(** * src/salescloud/client.ts *)
(* ================================================================== *)

Module Client.

(** ** The URL object

    A parsed URL: the serialization up to the query, the list behind
    [url.searchParams], and the fragment (empty, or starting with [#]). *)
Record URL : Type :=
  { before_query : string;
    searchParams : list (string * string);
    fragment : string }.

(** [URLSearchParams.prototype.set]: the first pair named [name] takes the
    value and the later ones are removed; without one, a pair is appended. *)
Definition named (name : string) (p : string * string) : bool :=
  String.eqb (fst p) name.

Fixpoint params_set (name value : string) (l : list (string * string))
  : list (string * string) :=
  match l with
  | [] => [(name, value)]
  | p :: l' =>
      if named name p
      then (fst p, value) :: List.filter (fun q => negb (named name q)) l'
      else p :: params_set name value l'
  end.

Definition searchParams_set (name value : string) (u : URL) : URL :=
  {| before_query := before_query u;
     searchParams := params_set name value (searchParams u);
     fragment := fragment u |}.

(** The application/x-www-form-urlencoded serializer. *)
Definition hex_digit (n : N) : ascii :=
  if (n <? 10)%N then ascii_of_N (48 + n) else ascii_of_N (55 + n).

Definition urlencoded_plain (c : ascii) : bool :=
  is_digit c || is_lower c || is_upper c
  || is_char "*" c || is_char "-" c || is_char "." c || is_char "_" c.

(** A byte as [%XX], before the text [rest]. *)
Definition percent (byte : N) (rest : string) : string :=
  String "%" (String (hex_digit (byte / 16))
                (String (hex_digit (byte mod 16)) rest)).

(** The serializer works on the UTF-8 bytes of the text: a code unit below
    128 is one byte, one from 128 to 255 is two. *)
Fixpoint urlencode (s : string) : string :=
  match s with
  | EmptyString => EmptyString
  | String c s' =>
      if is_char " " c then String "+" (urlencode s')
      else if urlencoded_plain c then String c (urlencode s')
      else if (code c <? 128)%N then percent (code c) (urlencode s')
      else percent (192 + code c / 64)
             (percent (128 + code c mod 64) (urlencode s'))
  end.

Definition serialize_pair (p : string * string) : string :=
  urlencode (fst p) +:+ "=" +:+ urlencode (snd p).

Fixpoint join (sep : string) (l : list string) : string :=
  match l with
  | [] => ""
  | [x] => x
  | x :: l' => x +:+ sep +:+ join sep l'
  end.

Definition serialize (l : list (string * string)) : string :=
  join "&" (map serialize_pair l).

(** [url.toString()] after [searchParams] was written to. *)
Definition URL_toString (u : URL) : string :=
  match serialize (searchParams u) with
  | EmptyString => before_query u +:+ fragment u
  | q => before_query u +:+ "?" +:+ q +:+ fragment u
  end.

Record Config : Type :=
  { salesCloudBaseUrl : string;
    scRequestTimeoutMs : Z }.

Section BuildUrl.

(** JavaScript numbers and [String(n)]; [new URL(s)], which throws on a
    string that is no URL. *)
Context {number : Type}.
Variable number_String : number -> string.
Variable URL_new : string -> completion URL.

Definition set_if_truthy (name : string) (v : option string) (u : URL) : URL :=
  if truthy v then searchParams_set name (default "" v) u else u.

Definition set_if_defined (name : string) (v : option number) (u : URL) : URL :=
  match v with
  | Some n => searchParams_set name (number_String n) u
  | None => u
  end.

(** The URL object of [buildUrl] just before [url.toString()]. *)
Definition buildUrl_object
    (config : Config) (endpoint : string) (params : ScQueryParams.t number)
  : completion URL :=
  bind (URL_new (salesCloudBaseUrl config +:+ endpoint)) (fun url =>
    let url := set_if_truthy "$select" (ScQueryParams.select params) url in
    let url := set_if_truthy "$filter" (ScQueryParams.filter params) url in
    let url := set_if_defined "$top" (ScQueryParams.top params) url in
    let url := set_if_defined "$skip" (ScQueryParams.skip params) url in
    let url := set_if_truthy "$orderby" (ScQueryParams.orderby params) url in
    let url := set_if_truthy "$expand" (ScQueryParams.expand params) url in
    let url := searchParams_set "$count" "true" url in
    Return url).

Definition buildUrl
    (config : Config) (endpoint : string) (params : ScQueryParams.t number)
  : completion string :=
  bind (buildUrl_object config endpoint params)
       (fun url => Return (URL_toString url)).

End BuildUrl.

(** ** [fetchWithRetry] *)

Definition inspect {A} (a : A) : {b : A | a = b} := exist _ a eq_refl.

Section FetchWithRetry.

(** [T]: the values [response.json()] can resolve to, [null] apart. *)
Variable T : Type.

Inductive Json : Type :=
| JsonNull
| JsonValue (data : T).

Record Response : Type :=
  { status : Z;
    text : promise string;   (* await response.text() *)
    json : promise Json }.   (* await response.json() *)

Definition ok (r : Response) : bool :=
  (200 <=? status r) && (status r <=? 299).

(** What the [fetch] issued for [url] at the attempt numbered [retryCount]
    settles to.  An expired [scRequestTimeoutMs] timer shows as a rejection
    of class [ClsAbortError]. *)
Variable fetch : string -> Z -> promise Response.

Variable config : Config.

Inductive Event : Type :=
| Fetched (url : string) (retryCount : Z)
| Slept (ms : Z).

(** How one run of the [try]/[catch] statement ends. *)
Inductive Attempt : Type :=
| Data (data : T)        (* return data *)
| Backoff (ms : Z)       (* await sleep(ms); return this.fetchWithRetry(url, retryCount + 1) *)
| Raise (e : JsError).   (* the error leaves the function *)

Definition backoffMs (retryCount : Z) : Z :=
  2 ^ retryCount * SC_RETRY_BASE_DELAY_MS.

(** The [try] block; [Raise] is an error thrown inside it. *)
Definition try_block (url : string) (retryCount : Z) : Attempt :=
  match fetch url retryCount with
  | Rejected e => Raise e
  | Resolved response =>
      if negb (ok response) then
        if (500 <=? status response) && (retryCount <? SC_MAX_RETRIES) then
          Backoff (backoffMs retryCount)
        else
          match text response with
          | Rejected e => Raise e
          | Resolved errorBody =>
              Raise (Error ("Sales Cloud API error: " +:+ pretty (status response)))
          end
      else
        match json response with
        | Rejected e => Raise e
        | Resolved JsonNull =>
            (* rawResponse.count on null, in the argument of logger.info *)
            Raise (mkError ClsTypeError
                     "Cannot read properties of null (reading 'count')")
        | Resolved (JsonValue data) => Data data
        end
  end.

(** The [catch] clause. *)
Definition catch_clause (retryCount : Z) (error : JsError) : Attempt :=
  match cls error with
  | ClsAbortError =>
      Raise (Error ("Sales Cloud request timeout after "
                      +:+ pretty (scRequestTimeoutMs config) +:+ "ms"))
  | ClsTypeError =>
      if retryCount <? SC_MAX_RETRIES then Backoff (backoffMs retryCount)
      else Raise error
  | _ => Raise error
  end.

Definition attempt (url : string) (retryCount : Z) : Attempt :=
  match try_block url retryCount with
  | Raise e => catch_clause retryCount e
  | a => a
  end.

Lemma attempt_Backoff url retryCount ms :
  attempt url retryCount = Backoff ms -> retryCount < SC_MAX_RETRIES.
Proof.
  unfold attempt, try_block, catch_clause.
  repeat case_match; intros; simplify_eq; lia.
Qed.

(** The recursion of [fetchWithRetry] on [retryCount], with the log of the
    requests sent and the pauses taken. *)
Equations? fetchWithRetry (url : string) (retryCount : Z)
  : list Event * promise T
  by wf (Z.to_nat (SC_MAX_RETRIES - retryCount)) lt :=
  fetchWithRetry url retryCount with inspect (attempt url retryCount) := {
    | exist _ (Data data) _ => ([Fetched url retryCount], Resolved data)
    | exist _ (Raise e) _ => ([Fetched url retryCount], Rejected e)
    | exist _ (Backoff ms) Hretry =>
        let rest := fetchWithRetry url (retryCount + 1) in
        (Fetched url retryCount :: Slept ms :: fst rest, snd rest) }.
Proof.
  apply attempt_Backoff in Hretry. lia.
Qed.

End FetchWithRetry.

Arguments JsonNull {T}.
Arguments JsonValue {T} data.

(** ** [fetchEntitySet] *)

Section FetchEntitySet.

Context {number : Type}.
Variable number_String : number -> string.
Variable URL_new : string -> completion URL.
Variable T : Type.
Variable fetch : string -> Z -> promise (Response T).
Variable config : Config.

(** The lookup in the entity registry ([getEntityBySetName]). *)
Variable getEntityBySetName : string -> option EntityDefinition.t.

Definition fetchEntitySet
    (entitySetName : string) (queryParams : ScQueryParams.t number)
  : list Event * promise T :=
  match getEntityBySetName entitySetName with
  | None => ([], Rejected (Error ("Unknown entity set: " +:+ entitySetName)))
  | Some entity =>
      match buildUrl number_String URL_new config
              (EntityDefinition.endpoint entity) queryParams with
      | Throw e => ([], Rejected e)
      | Return url => fetchWithRetry T fetch config url 0
      end
  end.

End FetchEntitySet.

End Client.

(* ================================================================== *)
(** * src/odata/keyset-pagination.ts *)
(* ================================================================== *)

(** The body of every function of the three pagination modules is the single
    statement [throw new Error('Implementation not included - see README')]. *)
Definition not_included : JsError :=
  Error "Implementation not included - see README".

Module Keyset.

Module SkiptokenPayload.
Record t : Type :=
  { lastKey : string;
    filter : option string;
    orderby : option string }.
End SkiptokenPayload.

Definition encodeSkiptoken
    (lastRecord : gmap string JsValue)
    (entityDefinition : EntityDefinition.t)
    (queryOptions : ODataQueryOptions.t)
    (secret : string)
  : completion string :=
  Throw not_included.

(** The result type is [SkiptokenPayload | null]; [None] stands for [null]. *)
Definition decodeSkiptoken (skiptoken secret : string)
  : completion (option SkiptokenPayload.t) :=
  Throw not_included.

Definition buildKeysetFilter
    (scKeyProperty lastKey : string) (originalFilter : option string)
  : completion string :=
  Throw not_included.

Definition buildSkiptokenFilter
    (decodedToken : SkiptokenPayload.t) (entityDefinition : EntityDefinition.t)
  : completion string :=
  Throw not_included.

Module PaginationStrategy.
Record t : Type :=
  { useSkip : bool;
    skipValue : option Z;
    keysetFilter : option string;
    error : option string }.
End PaginationStrategy.

Definition determinePaginationStrategy
    (requestedSkip : Z)
    (skiptoken : option string)
    (cachedLastKey : option string)
    (cachedPosition : option Z)
    (entity : EntityDefinition.t)
    (originalFilter : option string)
    (secret : string)
  : completion PaginationStrategy.t :=
  Throw not_included.

Definition extractLastKey
    (records : list (gmap string JsValue)) (entity : EntityDefinition.t)
  : completion (option string) :=
  Throw not_included.

Definition hasMorePages (currentResultCount requestedTop : Z)
  : completion bool :=
  Throw not_included.

End Keyset.

(* ================================================================== *)
(** * src/odata/pagination-cache.ts *)
(* ================================================================== *)

Module PaginationCache.

Record PageBoundary : Type :=
  { lastKey : string;
    timestamp : Z }.

Record CacheEntry : Type :=
  { boundaries : gmap Z PageBoundary;
    totalCount : option Z;
    createdAt : Z }.

(** The result of a successful lookup: [{ lastKey, actualPosition }]. *)
Record BoundaryHit : Type :=
  { hit_lastKey : string;
    actualPosition : Z }.

Definition buildCacheKey (entitySet : string) (filter orderby : option string)
  : completion string :=
  Throw not_included.

Definition recordPageBoundary
    (cacheKey : string) (skipPosition : Z) (lastKey : string)
    (totalCount : option Z)
  : completion unit :=
  Throw not_included.

Definition lookupPageBoundary (cacheKey : string) (skipPosition : Z)
  : completion (option BoundaryHit) :=
  Throw not_included.

Definition getCachedTotalCount (cacheKey : string) : completion (option Z) :=
  Throw not_included.

Definition clearPaginationCache : completion unit :=
  Throw not_included.

End PaginationCache.

(* ================================================================== *)
(** * The collection cache for flattened entity sets *)
(* ================================================================== *)

Module CollectionCache.

(** The [waiters] of the source, a list of callbacks, are left out. *)
Record CollectionCache : Type :=
  { data : list (gmap string JsValue);
    totalCount : Z;
    fetchedAt : Z;
    fetchInProgress : bool;
    fetchComplete : bool }.

(** The result of a read: [{ data, totalCount }]. *)
Record Slice : Type :=
  { slice_data : list (gmap string JsValue);
    slice_totalCount : Z }.

Definition getCachedCollection (entitySetName : string) (skip top : Z)
  : completion (option Slice) :=
  Throw not_included.

Definition isCollectionFetchInProgress (entitySetName : string)
  : completion bool :=
  Throw not_included.

Definition isCollectionCacheComplete (entitySetName : string)
  : completion bool :=
  Throw not_included.

(** An [async] function: the [throw] rejects the promise it returns. *)
Definition waitForCollectionCache (entitySetName : string) (timeoutMs : Z)
  : promise bool :=
  async (Throw not_included).

Definition triggerCollectionPrefetch
    (entitySetName : string) (entity : EntityDefinition.t)
    (config : Client.Config)
  : completion unit :=
  Throw not_included.

Definition clearAllCollectionCaches : completion unit :=
  Throw not_included.

End CollectionCache.

(* ================================================================== *)
(** * The collection cache, as the specification describes it *)
(* ================================================================== *)

(** The functions of the collection cache are published as declarations:
    their bodies are the statement [throw new Error('Implementation not
    included - see README')], and the module holds no cache.  [CollectionCache]
    above is that text.  This module is the cache behind the declarations,
    from the specification (its data model and section 4.5) and from the
    doc comments of the declarations; the record types are those of the
    source. *)

Module FlatteningCache.
Import CollectionCache.

Section Cache.

(** Modelled from the spec: what the walk over the parent entity set of an
    entity set meets, the implementation of the walk being missing: for each
    parent record, in keyset order, its nested array, each element tagged
    with the key of the parent. *)
Variable nested : string -> list (list (gmap string JsValue)).

(** Modelled from the spec: the entry of an entity set with its one
    background task, the implementation of both being missing.  [parents]
    are the nested arrays of the parent records that the walk has not
    reached yet. *)
Record Walk : Type :=
  { entry : CollectionCache;
    parents : list (list (gmap string JsValue)) }.

(** Modelled from the spec: the entry that the first request creates (the
    missing [triggerCollectionPrefetch]): an empty list, the walk in
    progress and not complete. *)
Definition started (name : string) : Walk :=
  {| entry := {| data := [];
                 totalCount := 0;
                 fetchedAt := 0;
                 fetchInProgress := true;
                 fetchComplete := false |};
     parents := nested name |}.

(** Modelled from the spec: one step of the missing background task.  It
    "appends the elements, in parent-then-within-array order, to one growing
    flat list.  Only after the parent walk is fully exhausted is the entry
    marked complete." *)
Definition tick (w : Walk) : Walk :=
  match parents w with
  | items :: rest =>
      {| entry := {| data := data (entry w) ++ items;
                     totalCount := totalCount (entry w);
                     fetchedAt := fetchedAt (entry w);
                     fetchInProgress := fetchInProgress (entry w);
                     fetchComplete := fetchComplete (entry w) |};
         parents := rest |}
  | [] =>
      {| entry := {| data := data (entry w);
                     totalCount := Z.of_nat (length (data (entry w)));
                     fetchedAt := fetchedAt (entry w);
                     fetchInProgress := false;
                     fetchComplete := true |};
         parents := [] |}
  end.

(** Modelled from the spec: the missing store is a [gmap string Walk], one
    entry "per entity-set name"; expiry and the clear operation, which
    remove an entry as a whole, are left out.  The passing of time, the
    scheduler being missing: every background task takes [n] steps, "at most
    one background task per cache entry". *)
Definition elapse (n : nat) (caches : gmap string Walk) : gmap string Walk :=
  Nat.iter n (fmap tick) caches.

(** Modelled from the spec: the missing body of
    [isCollectionCacheComplete], "Check if cache is complete for an entity
    set." *)
Definition isCollectionCacheComplete
    (caches : gmap string Walk) (entitySetName : string) : bool :=
  match caches !! entitySetName with
  | Some w => fetchComplete (entry w)
  | None => false
  end.

(** Modelled from the spec: the missing body of [getCachedCollection].
    "Reads against this entity set are a pure in-memory slice [offset,
    offset+limit) of the flat list, but only once complete"; "Returns null
    if cache is not ready."  [None] is that [null]. *)
Definition getCachedCollection
    (caches : gmap string Walk) (entitySetName : string) (skip top : Z)
  : option Slice :=
  match caches !! entitySetName with
  | Some w =>
      if fetchComplete (entry w) then
        Some {| slice_data :=
                  take (Z.to_nat top) (drop (Z.to_nat skip) (data (entry w)));
                slice_totalCount := totalCount (entry w) |}
      else None
  | None => None
  end.

(** Modelled from the spec: the missing body of
    [triggerCollectionPrefetch]: "start exactly one background task per
    entity-set name (guarded by inProgress)". *)
Definition triggerCollectionPrefetch
    (caches : gmap string Walk) (entitySetName : string) : gmap string Walk :=
  match caches !! entitySetName with
  | Some _ => caches
  | None => <[entitySetName := started entitySetName]> caches
  end.

(** Modelled from the spec: the missing body of [waitForCollectionCache],
    "Returns true if cache is ready, false if timeout."  The timeout is
    counted in the steps that the background tasks take before it expires;
    the caches are returned as they are when the wait ends. *)
Fixpoint waitForCollectionCache
    (caches : gmap string Walk) (entitySetName : string) (timeout : nat)
  : gmap string Walk * bool :=
  if isCollectionCacheComplete caches entitySetName then (caches, true)
  else
    match timeout with
    | O => (caches, false)
    | S timeout' =>
        waitForCollectionCache (fmap tick caches) entitySetName timeout'
    end.

(** Modelled from the spec: what a request for a page of the entity set
    ends in, the handler being missing: the page, or the failure of the
    request. *)
Inductive Answer : Type :=
| Served (slice : Slice)
| Failed.

(** Modelled from the spec: the missing handler of a request for a
    flattened entity set.  "if not complete, the caller waits [...] and, on
    timeout, the request fails outright". *)
Definition serveCollection
    (caches : gmap string Walk) (entitySetName : string) (skip top : Z)
    (timeout : nat)
  : gmap string Walk * Answer :=
  let triggered := triggerCollectionPrefetch caches entitySetName in
  let waited := waitForCollectionCache triggered entitySetName timeout in
  if snd waited then
    match getCachedCollection (fst waited) entitySetName skip top with
    | Some slice => (fst waited, Served slice)
    | None => (fst waited, Failed)
    end
  else (fst waited, Failed).

End Cache.

End FlatteningCache.

(* ================================================================== *)
(** * src/utils/security.ts, the helpers around the filter checks *)
(* ================================================================== *)

Module SecurityUtils.
Import Security.

(** ** [secureCompare] *)

(** [Buffer.from(s, 'utf-8')] on code units below 256: one byte below 128,
    two bytes from there on. *)
Definition utf8_unit (c : ascii) : list N :=
  let n := code c in
  if (n <? 128)%N then [n] else [(192 + n / 64)%N; (128 + n mod 64)%N].

Fixpoint utf8 (s : string) : list N :=
  match s with
  | EmptyString => []
  | String c s' => utf8_unit c ++ utf8 s'
  end.

(** [Buffer.alloc(n)] followed by [buffer.copy(padded)]: the bytes of
    [buffer], then zeros up to the length [n]. *)
Definition padded (n : nat) (buffer : list N) : list N :=
  buffer ++ replicate (n - length buffer) 0%N.

Fixpoint bytes_eqb (x y : list N) : bool :=
  match x, y with
  | [], [] => true
  | a :: x', b :: y' => (a =? b)%N && bytes_eqb x' y'
  | _, _ => false
  end.

(** [crypto.timingSafeEqual]: it throws on buffers of different lengths (a
    [RangeError], which nothing here tells from an [Error]). *)
Definition timingSafeEqual (x y : list N) : completion bool :=
  if (length x =? length y)%nat then Return (bytes_eqb x y)
  else Throw (Error "Input buffers must have the same byte length").

Definition secureCompare (a b : string) : completion bool :=
  let aBuffer := utf8 a in
  let bBuffer := utf8 b in
  let maxLength := Nat.max (length aBuffer) (length bBuffer) in
  let aPadded := padded maxLength aBuffer in
  let bPadded := padded maxLength bBuffer in
  let lengthMatch := (length aBuffer =? length bBuffer)%nat in
  bind (timingSafeEqual aPadded bPadded) (fun same =>
    Return (same && lengthMatch)).

(** ** [combineFilters] *)

(** The test of the [filter] call: [f && f.trim()]. *)
Definition is_nonEmpty (f : string) : bool :=
  truthy (Some f) && truthy (Some (trim f)).

Definition combineFilters (filters : list string) : string :=
  let nonEmpty := List.filter is_nonEmpty filters in
  match nonEmpty with
  | [] => ""
  | [f] => f
  | _ => Client.join " and " (map (fun f => "(" +:+ f +:+ ")") nonEmpty)
  end.

(** ** [maskSensitive] *)

(** ['*'.repeat(n)] *)
Fixpoint stars (n : nat) : string :=
  match n with
  | O => EmptyString
  | S n' => String "*" (stars n')
  end.

(** [value.substring(0, n)]: the first [n] code units, all of them when
    there are fewer. *)
Fixpoint take_units (n : nat) (value : string) : string :=
  match n, value with
  | S n', String c s => String c (take_units n' s)
  | _, _ => EmptyString
  end.

(** [visibleChars] is 4 when the caller leaves it out; a negative bound of
    [substring] counts as 0. *)
Definition maskSensitive (value : string) (visibleChars : Z) : string :=
  let len := Z.of_nat (String.length value) in
  if len <=? visibleChars then stars (String.length value)
  else take_units (Z.to_nat visibleChars) value
         +:+ stars (Z.to_nat (Z.min (len - visibleChars) 8)).

End SecurityUtils.

(* ================================================================== *)
(** * src/odata/parser.ts, [validateFilter] *)
(* ================================================================== *)

Module FilterSyntax.
Import Security.

Record Validation : Set :=
  { valid : bool; error : option string }.

(** The [for] loop over the characters: [None] is the [return] from inside
    the loop, at the first closing parenthesis without an opening one. *)
Fixpoint paren_loop (depth : Z) (filter : string) : option Z :=
  match filter with
  | EmptyString => Some depth
  | String char rest =>
      let depth := if is_char "(" char then depth + 1 else depth in
      let depth := if is_char ")" char then depth - 1 else depth in
      if depth <? 0 then None else paren_loop depth rest
  end.

(** [(filter.match(/'/g) || []).length] *)
Fixpoint singleQuotes (filter : string) : nat :=
  match filter with
  | EmptyString => O
  | String c rest => if is_char "'" c then S (singleQuotes rest) else singleQuotes rest
  end.

Definition validateFilter (filter : string) : Validation :=
  if negb (isFilterContentSafe filter) then
    {| valid := false;
       error := Some "Filter contains invalid or dangerous characters" |}
  else
    match paren_loop 0 filter with
    | None => {| valid := false; error := Some "Unbalanced parentheses in filter" |}
    | Some depth =>
        if negb (depth =? 0) then
          {| valid := false; error := Some "Unbalanced parentheses in filter" |}
        else if negb (singleQuotes filter mod 2 =? 0)%nat then
          {| valid := false; error := Some "Unbalanced quotes in filter" |}
        else {| valid := true; error := None |}
    end.

End FilterSyntax.

(* ================================================================== *)
(** * src/auth/basic-auth.ts *)
(* ================================================================== *)

Module BasicAuth.
Import SecurityUtils.

(** The [validate] callback handed to the basic-auth plugin; both
    comparisons are made before either result is looked at.  The callback
    is [async]: what is thrown here is the rejection of its promise. *)
Definition validate
    (username password proxyUsername proxyPassword : string)
  : completion unit :=
  bind (secureCompare username proxyUsername) (fun usernameValid =>
  bind (secureCompare password proxyPassword) (fun passwordValid =>
    if negb usernameValid || negb passwordValid
    then Throw (Error "Invalid credentials")
    else Return tt)).

End BasicAuth.

(* ================================================================== *)
(** * src/salescloud/client.ts, [fetchEntity] *)
(* ================================================================== *)

Module ClientEntity.
Import Client.

(** [s.includes(sub)] *)
Definition includes (sub s : string) : bool :=
  test (map is_char (String.list_ascii_of_string sub)) s.

Section FetchEntity.

Variable T : Type.
Variable fetch : string -> Z -> promise (Response T).
Variable config : Config.
Variable getEntityBySetName : string -> option EntityDefinition.t.

(** [None] is the [null] returned for an entity that is not found. *)
Definition fetchEntity (entitySetName key : string)
  : list Event * promise (option T) :=
  match getEntityBySetName entitySetName with
  | None => ([], Rejected (Error ("Unknown entity set: " +:+ entitySetName)))
  | Some entity =>
      let url := salesCloudBaseUrl config +:+ EntityDefinition.endpoint entity
                   +:+ "/" +:+ key in
      let call := fetchWithRetry T fetch config url 0 in
      match snd call with
      | Resolved data => (fst call, Resolved (Some data))
      | Rejected error =>
          if includes "404" (message error) then (fst call, Resolved None)
          else (fst call, Rejected error)
      end
  end.

End FetchEntity.

End ClientEntity.

(* ================================================================== *)
(** * src/utils/object.ts *)
(* ================================================================== *)

Module ObjectUtils.

Section GetNestedValue.

(** Objects (arrays among them) and the values whose [typeof] is not
    ['object']; [get o part] is the property access [o[part]]. *)
Variable Obj : Type.
Variable Prim : Type.

Inductive Unknown : Type :=
| Undefined
| Null
| Primitive (p : Prim)
| Object (o : Obj).

Variable get : Obj -> string -> Unknown.

(** The [for] loop over the parts of the path, from the value [current]. *)
Fixpoint walk (current : Unknown) (parts : list string) : Unknown :=
  match parts with
  | [] => current
  | part :: rest =>
      match current with
      | Object o => walk (get o part) rest
      | _ => Undefined
      end
  end.

Definition getNestedValue (obj : Obj) (path : string) : Unknown :=
  walk (Object obj) (split "." path).

End GetNestedValue.

Arguments Undefined {Obj Prim}.
Arguments Null {Obj Prim}.
Arguments Primitive {Obj Prim} p.
Arguments Object {Obj Prim} o.

End ObjectUtils.

(* ================================================================== *)
(** * src/utils/async.ts, [waitWithTimeout] *)
(* ================================================================== *)

Module Async.

Section WaitWithTimeout.

Variable T : Type.
Variable TTimeout : Type.
Variable timeoutValue : TTimeout.

(** What the call [registerCallback(onSuccess)] does: the values it hands
    to [onSuccess] before it ends, and how it ends: it returns the function
    [unregister], of which [Return tt] and [Throw e] say how a call of it
    ends, or it throws. *)
Record Registration : Type :=
  { calls : list T;
    outcome : completion (completion unit) }.

(** An error that leaves the callback of the timer: nothing catches it. *)
Inductive Uncaught : Type :=
| Uninitialized         (* [unregister] is read before it has a value *)
| Thrown (e : JsError). (* [unregister()] threw [e] *)

(** The promise and its surroundings between two callbacks: the flag
    [settled]; the state of the promise, [None] while it is pending; whether
    the timer is still to go off; the variable [unregister], [None] while
    its [const] has no value; how often [unregister] was called; and the
    errors that left the callback of the timer. *)
Record Wait : Type :=
  { settled : bool;
    state : option (promise (T + TTimeout));
    timer_armed : bool;
    unregister : option (completion unit);
    unregistered : nat;
    uncaught : list Uncaught }.

(** [resolve(value)] and the rejection of the promise by an executor that
    throws: neither changes a promise that is no longer pending. *)
Definition resolve (value : T + TTimeout) (w : Wait) : Wait :=
  match state w with
  | Some _ => w
  | None =>
      {| settled := settled w; state := Some (Resolved value);
         timer_armed := timer_armed w; unregister := unregister w;
         unregistered := unregistered w; uncaught := uncaught w |}
  end.

Definition reject (e : JsError) (w : Wait) : Wait :=
  match state w with
  | Some _ => w
  | None =>
      {| settled := settled w; state := Some (Rejected e);
         timer_armed := timer_armed w; unregister := unregister w;
         unregistered := unregistered w; uncaught := uncaught w |}
  end.

(** The body of [onSuccess]. *)
Definition on_success (value : T) (w : Wait) : Wait :=
  if settled w then w
  else
    resolve (inl value)
      {| settled := true; state := state w;
         timer_armed := false;                      (* clearTimeout(timeout) *)
         unregister := unregister w;
         unregistered := unregistered w; uncaught := uncaught w |}.

(** The timer goes off once, unless it was cleared; then the callback of
    [setTimeout] runs.  [unregister()] throws when the variable has no value
    yet and when the function throws, and [resolve(timeoutValue)] is not
    reached then. *)
Definition on_timer (w : Wait) : Wait :=
  if negb (timer_armed w) then w
  else if settled w then
    {| settled := true; state := state w; timer_armed := false;
       unregister := unregister w;
       unregistered := unregistered w; uncaught := uncaught w |}
  else
    match unregister w with
    | None =>
        {| settled := true; state := state w; timer_armed := false;
           unregister := None;
           unregistered := unregistered w;
           uncaught := uncaught w ++ [Uninitialized] |}
    | Some (Throw e) =>
        {| settled := true; state := state w; timer_armed := false;
           unregister := unregister w;
           unregistered := S (unregistered w);
           uncaught := uncaught w ++ [Thrown e] |}
    | Some (Return _) =>
        resolve (inr timeoutValue)
          {| settled := true; state := state w; timer_armed := false;
             unregister := unregister w;
             unregistered := S (unregistered w); uncaught := uncaught w |}
    end.

(** The executor of [new Promise]: [settled] is [false], the timer is set,
    and [registerCallback(onSuccess)] runs; what it returns becomes
    [unregister], and what it throws rejects the promise. *)
Definition executor (r : Registration) : Wait :=
  let w :=
    fold_left (fun w value => on_success value w) (calls r)
      {| settled := false; state := None; timer_armed := true;
         unregister := None; unregistered := 0; uncaught := [] |} in
  match outcome r with
  | Return u =>
      {| settled := settled w; state := state w;
         timer_armed := timer_armed w; unregister := Some u;
         unregistered := unregistered w; uncaught := uncaught w |}
  | Throw e => reject e w
  end.

(** What can happen after [waitWithTimeout] has returned the promise: the
    timer goes off, or whoever holds [onSuccess] calls it. *)
Inductive Callback : Type :=
| TimerFires
| OnSuccess (value : T).

Definition step (w : Wait) (c : Callback) : Wait :=
  match c with
  | TimerFires => on_timer w
  | OnSuccess value => on_success value w
  end.

(** The state after the call and a sequence of callbacks. *)
Definition waitWithTimeout (r : Registration) (callbacks : list Callback)
  : Wait :=
  fold_left step callbacks (executor r).

End WaitWithTimeout.

Arguments TimerFires {T}.
Arguments OnSuccess {T} value.

End Async.

(* ================================================================== *)
(** * src/config.ts *)
(* ================================================================== *)

Module ConfigEnv.

(** The whole of [Config]; [Client.Config] holds the two fields the
    upstream client reads.  [port] comes out of [parseInt]; the request
    timeout comes out of [Number(...)], which is a parameter below. *)
Record Config (number : Type) : Type :=
  { salesCloudBaseUrl : string;
    scUsername : string;
    scPassword : string;
    scRequestTimeoutMs : number;
    proxyUsername : string;
    proxyPassword : string;
    allowedOrigin : string;
    skiptokenSecret : string;
    port : Z;
    nodeEnv : string;
    publicUrl : option string }.

Arguments salesCloudBaseUrl {number} _.
Arguments scUsername {number} _.
Arguments scPassword {number} _.
Arguments scRequestTimeoutMs {number} _.
Arguments proxyUsername {number} _.
Arguments proxyPassword {number} _.
Arguments allowedOrigin {number} _.
Arguments skiptokenSecret {number} _.
Arguments port {number} _.
Arguments nodeEnv {number} _.
Arguments publicUrl {number} _.

(** [s.replace(/\/$/, '')]: one slash at the very end goes. *)
Fixpoint strip_slash (s : string) : string :=
  match s with
  | EmptyString => EmptyString
  | String c EmptyString => if is_char "/" c then EmptyString else s
  | String c s' => String c (strip_slash s')
  end.

Section LoadConfig.

(** [process.env], the numbers of JavaScript with [Number(v)] on a
    [string | undefined], their truthiness, and the literal [300000]. *)
Variable env : gmap string string.
Context {number : Type}.
Variable Number_ : option string -> number.
Variable number_truthy : number -> bool.
Variable number_300000 : number.

Definition getRequiredEnv (key : string) : completion string :=
  let value := env !! key in
  if negb (truthy value) then
    Throw (Error ("Missing required environment variable: " +:+ key))
  else Return (default "" value).

Definition getOptionalEnv (key defaultValue : string) : string :=
  let value := env !! key in
  if truthy value then default "" value else defaultValue.

Definition getOptionalEnvNumber (key : string) (defaultValue : Z)
  : completion Z :=
  let value := env !! key in
  if negb (truthy value) then Return defaultValue
  else
    match parseInt (default "" value) with
    | None =>
        Throw (Error ("Environment variable " +:+ key +:+ " must be a number"))
    | Some parsed => Return parsed
    end.

(** The fields are evaluated from top to bottom; the first [throw] ends the
    call. *)
Definition loadConfig : completion (Config number) :=
  bind (getRequiredEnv "SALES_CLOUD_BASE_URL") (fun baseUrl =>
  bind (getRequiredEnv "SC_USERNAME") (fun scUsername_ =>
  bind (getRequiredEnv "SC_PASSWORD") (fun scPassword_ =>
  let timeout := Number_ (env !! "SC_REQUEST_TIMEOUT_MS") in
  let timeout := if number_truthy timeout then timeout else number_300000 in
  bind (getRequiredEnv "PROXY_USERNAME") (fun proxyUsername_ =>
  bind (getRequiredEnv "PROXY_PASSWORD") (fun proxyPassword_ =>
  let allowedOrigin_ :=
    getOptionalEnv "ALLOWED_ORIGIN" "https://my-tenant.hcs.cloud.sap" in
  bind (getRequiredEnv "SKIPTOKEN_SECRET") (fun skiptokenSecret_ =>
  bind (getOptionalEnvNumber "PORT" 3000) (fun port_ =>
  let nodeEnv_ := getOptionalEnv "NODE_ENV" "development" in
  Return
    {| salesCloudBaseUrl := strip_slash baseUrl;
       scUsername := scUsername_;
       scPassword := scPassword_;
       scRequestTimeoutMs := timeout;
       proxyUsername := proxyUsername_;
       proxyPassword := proxyPassword_;
       allowedOrigin := allowedOrigin_;
       skiptokenSecret := skiptokenSecret_;
       port := port_;
       nodeEnv := nodeEnv_;
       publicUrl := strip_slash <$> (env !! "PUBLIC_URL") |}))))))).

End LoadConfig.

End ConfigEnv.

(* ================================================================== *)
(** * The vocabulary of the properties *)
(* ================================================================== *)

(** ** Safe keyset conditions *)

Module SecuritySpec.
Import Security.

(** [sub] occurs in [s]. *)
Definition occurs (sub s : string) : Prop :=
  exists pre suf, s = pre +:+ sub +:+ suf.

Definition hex_char (c : ascii) : Prop :=
  (code "0" <= code c <= code "9")%N \/
  (code "a" <= code c <= code "f")%N \/
  (code "A" <= code c <= code "F")%N.

(** A backslash, [x] or [X], and two hexadecimal digits. *)
Definition has_hex_escape (s : string) : Prop :=
  exists pre x h1 h2 suf,
    s = pre +:+ String "\" (String x (String h1 (String h2 suf)))
    /\ (x = "x"%char \/ x = "X"%char) /\ hex_char h1 /\ hex_char h2.

Definition dangerous (s : string) : Prop :=
  occurs ";" s \/ occurs "--" s \/ occurs "/*" s \/ occurs "*/" s
  \/ occurs (String "000" "") s \/ has_hex_escape s.

Definition letter (c : ascii) : Prop :=
  (code "a" <= code c <= code "z")%N \/ (code "A" <= code c <= code "Z")%N.

Definition digit (c : ascii) : Prop := (code "0" <= code c <= code "9")%N.

(** [^[a-zA-Z_][a-zA-Z0-9_]*$] in words. *)
Definition identifier (s : string) : Prop :=
  exists c rest,
    s = String c rest
    /\ (letter c \/ c = "_"%char)
    /\ Forall (fun d => letter d \/ digit d \/ d = "_"%char)
              (String.list_ascii_of_string rest).

(** The value with every single quote doubled. *)
Fixpoint doubled (s : string) : string :=
  match s with
  | EmptyString => EmptyString
  | String c s' => (if Ascii.eqb c "'" then "''" else String c "") +:+ doubled s'
  end.

(** The word [w] is matched by the classes of [p], one for one. *)
Definition word_of (p : RegExp) (w : string) : Prop :=
  Forall2 (fun (cl : CharClass) c => cl c = true) p (String.list_ascii_of_string w).

(** The inputs [buildKeysetCondition] is meant to accept. *)
Definition acceptable (fieldName value : string) : Prop :=
  identifier fieldName /\ (String.length value <= 100)%nat /\ ~ dangerous value.

End SecuritySpec.

(** ** Sample requests for the query parser *)

Module ParserSpec.
Import Parser.

(** [?$top=5000] *)
Definition query_top_5000 : gmap string QueryValue :=
  {[ "$top" := QString "5000" ]}.

(** [?$top=abc] *)
Definition query_top_abc : gmap string QueryValue :=
  {[ "$top" := QString "abc" ]}.

(** [?$top=]: the key is there and its value is the empty string. *)
Definition query_top_empty : gmap string QueryValue :=
  {[ "$top" := QString "" ]}.

(** [$top] holds a positive integer as far as [parseInt] is concerned. *)
Definition positive_integer (s : string) (n : Z) : Prop :=
  parseInt s = Some n /\ 0 < n.

(** [$top] does not parse to a positive integer. *)
Definition not_positive_integer (s : string) : Prop :=
  forall n, parseInt s = Some n -> n <= 0.

End ParserSpec.

(** ** What it means for a URL to request the total count *)

Module ClientSpec.
Import Client.

(** Among the query parameters there is one named [$count], and only one;
    its value is [true]. *)
Definition requests_count (u : URL) : Prop :=
  exists before after,
    searchParams u = before ++ ("$count", "true") :: after
    /\ Forall (fun p => fst p <> "$count") before
    /\ Forall (fun p => fst p <> "$count") after.

(** The text [href] is [u] up to its query, then a query string with the
    component [%24count=true] ([$] is percent-encoded in a query), then the
    fragment of [u]. *)
Definition href_requests_count (href : string) (u : URL) : Prop :=
  exists q1 q2,
    href = before_query u +:+ "?" +:+ q1 +:+ "%24count=true" +:+ q2 +:+ fragment u
    /\ (q1 = "" \/ exists q, q1 = q +:+ "&")
    /\ (q2 = "" \/ exists q, q2 = "&" +:+ q).

(** The components of a query string that stand before, and after, a given
    one. *)
Definition lead (l : list string) : string :=
  match l with [] => "" | _ => join "&" l +:+ "&" end.

Definition trail (l : list string) : string :=
  match l with [] => "" | _ => "&" +:+ join "&" l end.

(** A stand-in for [new URL(s)]: everything is path, and the caller's query
    already asks for [$count=false]. *)
Definition sample_URL_new (s : string) : completion URL :=
  Return {| before_query := s;
            searchParams := [("$count", "false"); ("$count", "0")];
            fragment := "" |}.

Definition sample_config : Config :=
  {| salesCloudBaseUrl := "https://example.crm.cloud.sap";
     scRequestTimeoutMs := 300000 |}.

(** The caller asks for the first 999 records and for no count. *)
Definition sample_params : ScQueryParams.t Z :=
  {| ScQueryParams.select := None;
     ScQueryParams.filter := None;
     ScQueryParams.top := Some 999;
     ScQueryParams.skip := None;
     ScQueryParams.orderby := None;
     ScQueryParams.count := Some false;
     ScQueryParams.expand := None |}.

(** ** The course of [fetchWithRetry] *)

(** The log of a call that starts at attempt [k] and is retried [n] times:
    [n + 1] requests, with the pause [2^i * 500] after the attempt numbered
    [i]. *)
Fixpoint schedule (url : string) (k : Z) (n : nat) : list Event :=
  match n with
  | O => [Fetched url k]
  | S n' => Fetched url k :: Slept (backoffMs k) :: schedule url (k + 1) n'
  end.

Definition is_request (ev : Event) : bool :=
  match ev with Fetched _ _ => true | Slept _ => false end.

(** The number of requests sent. *)
Definition attempts (log : list Event) : nat :=
  length (List.filter is_request log).

(** The URLs of the requests sent, in order. *)
Fixpoint requested_urls (log : list Event) : list string :=
  match log with
  | [] => []
  | Fetched url _ :: log' => url :: requested_urls log'
  | Slept _ :: log' => requested_urls log'
  end.

Section Upstream.

Variable T : Type.
Variable fetch : string -> Z -> promise (Response T).

(** The upstream answered the attempt numbered [k] with a status of 500 or
    more. *)
Definition server_error (url : string) (k : Z) : Prop :=
  exists response,
    fetch url k = Resolved response /\ ok T response = false
    /\ 500 <= status T response.

(** A [TypeError] was thrown inside the [try] block of the attempt
    numbered [k]. *)
Definition type_error (url : string) (k : Z) : Prop :=
  exists e, try_block T fetch url k = Raise T e /\ cls e = ClsTypeError.

End Upstream.

(** An upstream that answers every request with [200 OK] and the JSON text
    [null]. *)
Definition null_response (T : Type) : Response T :=
  {| status := 200; text := Resolved "null"; json := Resolved JsonNull |}.

Definition null_upstream (T : Type) (url : string) (retryCount : Z)
  : promise (Response T) :=
  Resolved (null_response T).

End ClientSpec.

(** ** Sample inputs for the pagination modules *)

Module PaginationSpec.
Import Keyset.

(** The [Account] entry of the entity registry ([src/salescloud/entities.ts]). *)
Definition account : EntityDefinition.t :=
  {| EntityDefinition.name := "Account";
     EntityDefinition.setName := "Accounts";
     EntityDefinition.endpoint := "/sap/c4c/api/v1/account-service/accounts";
     EntityDefinition.keyProperty := "accountId";
     EntityDefinition.scKeyProperty := "id";
     EntityDefinition.isVirtualEntity := None;
     EntityDefinition.parentEntitySet := None;
     EntityDefinition.sourceProperty := None;
     EntityDefinition.parentKeyProperty := None |}.

(** The last record of a page, with the key [K]. *)
Definition last_record : gmap string JsValue :=
  {[ "accountId" := JsString "K" ]}.

(** The options of a request without [$filter] and [$orderby]. *)
Definition plain_options : ODataQueryOptions.t :=
  {| ODataQueryOptions.select := None;
     ODataQueryOptions.filter := None;
     ODataQueryOptions.top := Some 999;
     ODataQueryOptions.skip := None;
     ODataQueryOptions.orderby := None;
     ODataQueryOptions.count := Some true;
     ODataQueryOptions.expand := None;
     ODataQueryOptions.skiptoken := None |}.

Definition payload_K : SkiptokenPayload.t :=
  {| SkiptokenPayload.lastKey := "K";
     SkiptokenPayload.filter := None;
     SkiptokenPayload.orderby := None |}.

(** Encoding yields a token that decodes, under the same secret, to
    [payload]. *)
Definition round_trip
    (lastRecord : gmap string JsValue) (entity : EntityDefinition.t)
    (options : ODataQueryOptions.t) (secret : string)
    (payload : SkiptokenPayload.t) : Prop :=
  exists token,
    encodeSkiptoken lastRecord entity options secret = Return token
    /\ decodeSkiptoken token secret = Return (Some payload).

(** The strategy is the refusal to paginate: it carries an error message. *)
Definition limit_exceeded (strategy : PaginationStrategy.t) : Prop :=
  PaginationStrategy.error strategy <> None.

End PaginationSpec.

(** ** Filters and literals *)

Module FilterSpec.
Import Security.

(** Reading an OData string literal from just after its opening quote: two
    quotes stand for one, a single quote closes the literal.  The result is
    the value read and the text after the closing quote. *)
Fixpoint read_literal (s : string) : option (string * string) :=
  match s with
  | EmptyString => None
  | String c s' =>
      if Ascii.eqb c "'" then
        match s' with
        | String c' s'' =>
            if Ascii.eqb c' "'" then
              match read_literal s'' with
              | Some (value, rest) => Some (String "'" value, rest)
              | None => None
              end
            else Some (EmptyString, s')
        | EmptyString => Some (EmptyString, EmptyString)
        end
      else
        match read_literal s' with
        | Some (value, rest) => Some (String c value, rest)
        | None => None
        end
  end.

(** The number of occurrences of the character [a]. *)
Fixpoint occurrences (a : ascii) (s : string) : Z :=
  match s with
  | EmptyString => 0
  | String c s' => (if Ascii.eqb c a then 1 else 0) + occurrences a s'
  end.

(** No beginning of [s] closes more parentheses than it opens, and [s] as
    a whole closes as many as it opens. *)
Definition balanced (s : string) : Prop :=
  (forall pre suf, s = pre +:+ suf ->
     occurrences ")" pre <= occurrences "(" pre)
  /\ occurrences ")" s = occurrences "(" s.

(** An even number of single quotes. *)
Definition quotes_paired (s : string) : Prop :=
  exists k, occurrences "'" s = 2 * k.

(** No class of the pattern accepts the character [c]. *)
Definition rejects (p : RegExp) (c : ascii) : bool :=
  forallb (fun cl : CharClass => negb (cl c)) p.

(** The depth of nesting after one more character. *)
Definition depth_step (depth : Z) (c : ascii) : Z :=
  let depth := if is_char "(" c then depth + 1 else depth in
  if is_char ")" c then depth - 1 else depth.

(** The text [combineFilters] puts a filter into when there are several. *)
Definition wrapped (f : string) : string := "(" +:+ f +:+ ")".

(** Two filters among blank ones. *)
Definition sample_filters : list string :=
  ["status eq 'active'"; "   "; "(country eq 'DE' or country eq 'AT')"; ""].

End FilterSpec.

(** ** The limits and the shape of parsed options *)

Module ParserOptionsSpec.
Import Parser.

(** The parameters with a maximum length, as [QUERY_LIMITS] has them. *)
Definition limited_params : list (string * nat) :=
  [("$filter", 4096%nat); ("$select", 2048%nat);
   ("$orderby", 512%nat); ("$skiptoken", 1024%nat)].

(** The parameter [key] is longer than [limit] allows. *)
Definition oversized (query : gmap string QueryValue) (key : string) (limit : nat)
  : Prop :=
  exists v, getQueryParam query key = Some v /\ (limit < String.length v)%nat.

(** No white space at either end. *)
Definition trimmed (s : string) : Prop :=
  (forall c r, s = String c r -> is_space c = false)
  /\ (forall c r, s = r +:+ String c "" -> is_space c = false).

(** [?$select= name , id &$skip=20&$count=FALSE] *)
Definition query_select : gmap string QueryValue :=
  {[ "$select" := QString " name , id ";
     "$skip" := QString "20";
     "$count" := QString "FALSE" ]}.

(** [?$filter=status eq 'active'&$orderby=name&$skiptoken=abc&$select=] *)
Definition query_orderby : gmap string QueryValue :=
  {[ "$filter" := QString "status eq 'active'";
     "$orderby" := QString "name";
     "$skiptoken" := QString "abc";
     "$select" := QString "" ]}.

End ParserOptionsSpec.

(** ** Paths into records *)

Module ObjectSpec.
Import ObjectUtils.

(** A path of one part: no dot in it. *)
Definition one_part (path : string) : Prop :=
  forall pre suf, path <> pre +:+ "." +:+ suf.

(** An account with a nested address: the objects are named, the
    primitives are strings. *)
Inductive sample_object : Type := account | address.

Definition sample_get (o : sample_object) (part : string)
  : Unknown sample_object string :=
  match o with
  | account =>
      if String.eqb part "id" then Primitive "A1"
      else if String.eqb part "defaultAddress" then Object address
      else Undefined
  | address =>
      if String.eqb part "country" then Primitive "DE"
      else if String.eqb part "city" then Primitive "Walldorf"
      else Undefined
  end.

End ObjectSpec.

(** ** The environment of the process *)

Module ConfigSpec.
Import ConfigEnv.

(** The variables read with [getRequiredEnv], in the order of the fields. *)
Definition required_vars : list string :=
  ["SALES_CLOUD_BASE_URL"; "SC_USERNAME"; "SC_PASSWORD";
   "PROXY_USERNAME"; "PROXY_PASSWORD"; "SKIPTOKEN_SECRET"].

(** The variable is there, with a value that is not the empty string. *)
Definition set_non_empty (env : gmap string string) (key : string) : Prop :=
  exists v, env !! key = Some v /\ v <> "".

(** [PORT] is absent or empty, or its value starts with a number. *)
Definition port_readable (env : gmap string string) : Prop :=
  match env !! "PORT" with
  | Some (String c s) => parseInt (String c s) <> None
  | _ => True
  end.

Definition sample_env : gmap string string :=
  list_to_map
    [("SALES_CLOUD_BASE_URL", "https://example.crm.cloud.sap/");
     ("SC_USERNAME", "sc-user"); ("SC_PASSWORD", "sc-pass");
     ("PROXY_USERNAME", "sac"); ("PROXY_PASSWORD", "s3cret");
     ("SKIPTOKEN_SECRET", "0123abcd"); ("PORT", "")].

End ConfigSpec.

(** ** Upstreams *)

Module RetrySpec.
Import Client ClientSpec ClientEntity.

Section Upstream.

Variable T : Type.
Variable fetch : string -> Z -> promise (Response T).

(** The attempt numbered [k] failed in one of the two ways that are
    retried. *)
Definition retryable (url : string) (k : Z) : Prop :=
  server_error T fetch url k \/ type_error T fetch url k.

(** The upstream answered the attempt numbered [k] with a 2xx status and a
    body that parses to [data]. *)
Definition success (url : string) (k : Z) (data : T) : Prop :=
  exists response,
    fetch url k = Resolved response /\ ok T response = true
    /\ json T response = Resolved (JsonValue data).

End Upstream.

(** The message of the error for an upstream status. *)
Definition api_error (status : Z) : JsError :=
  Error ("Sales Cloud API error: " +:+ pretty status).

Definition timeout_error (config : Config) : JsError :=
  Error ("Sales Cloud request timeout after "
           +:+ pretty (scRequestTimeoutMs config) +:+ "ms").

Definition answer (status : Z) (body : string) (data : promise (Json string))
  : Response string :=
  {| status := status; text := Resolved body; json := data |}.

Definition not_json : JsError :=
  mkError ClsSyntaxError "Unexpected token S in JSON at position 0".

(** An upstream that answers 503, then drops the connection, then
    answers. *)
Definition flaky_upstream (url : string) (retryCount : Z)
  : promise (Response string) :=
  if retryCount =? 0 then
    Resolved (answer 503 "Service Unavailable" (Rejected not_json))
  else if retryCount =? 1 then Rejected (mkError ClsTypeError "fetch failed")
  else Resolved (answer 200 "{}" (Resolved (JsonValue "{}"))).

(** An upstream that is down. *)
Definition down_upstream (url : string) (retryCount : Z)
  : promise (Response string) :=
  Resolved (answer 503 "Service Unavailable" (Rejected not_json)).

(** An upstream that answers with the same 4xx status whatever is asked. *)
Definition refusing_upstream (status : Z) (url : string) (retryCount : Z)
  : promise (Response string) :=
  Resolved (answer status "{}" (Resolved (JsonValue "{}"))).

(** An upstream that does not answer in time. *)
Definition hanging_upstream (url : string) (retryCount : Z)
  : promise (Response string) :=
  Rejected (mkError ClsAbortError "This operation was aborted").

(** A registry with the one entity set [Accounts]. *)
Definition sample_registry (setName : string) : option EntityDefinition.t :=
  if String.eqb setName "Accounts" then Some PaginationSpec.account else None.

End RetrySpec.

(** ** The states of the collection cache *)

Module CollectionSpec.
Import CollectionCache FlatteningCache.

Section Cache.

Variable nested : string -> list (list (gmap string JsValue)).

(** The states the caches go through: entries are created by the first
    request for their entity set and changed by their background task. *)
Inductive reachable : gmap string Walk -> Prop :=
| reachable_empty : reachable ∅
| reachable_trigger (caches : gmap string Walk) (name : string) :
    reachable caches -> reachable (triggerCollectionPrefetch nested caches name)
| reachable_tick (caches : gmap string Walk) :
    reachable caches -> reachable (tick <$> caches).

(** The list of an entry holds the nested arrays of the parents walked so
    far, in order; a complete entry has no parent left and carries the
    length of its list as the total count. *)
Definition consistent (name : string) (w : Walk) : Prop :=
  exists done,
    nested name = done ++ parents w
    /\ data (entry w) = concat done
    /\ (fetchComplete (entry w) = true ->
        parents w = [] /\ fetchInProgress (entry w) = false
        /\ totalCount (entry w) = Z.of_nat (length (data (entry w)))).

End Cache.

(** Three accounts with fifty addresses each, numbered through. *)
Definition sample_address (n : nat) : gmap string JsValue :=
  {[ "line" := JsNumber (Z.of_nat n) ]}.

Definition sample_nested (name : string) : list (list (gmap string JsValue)) :=
  if String.eqb name "AccountAddresses"
  then map (fun account => map sample_address (seq (50 * account) 50))
           [0; 1; 2]%nat
  else [].

End CollectionSpec.

(** ** Callers of [waitWithTimeout] *)

Module AsyncSpec.
Import Async.

(** A caller that registers its handler and returns, with an [unregister]
    that returns. *)
Definition patient : Registration string :=
  {| calls := []; outcome := Return (Return tt) |}.

(** A caller whose [unregister] throws. *)
Definition stuck : Registration string :=
  {| calls := []; outcome := Return (Throw (Error "handler is gone")) |}.

End AsyncSpec.

(* ================================================================== *)
(** * Facts about strings *)
(* ================================================================== *)

#[local] Arguments String.append !_ _ : simpl nomatch.

Section StringFacts.

Lemma append_nil_r (s : string) : s +:+ "" = s.
Proof. induction s as [|c s IH]; simpl; [reflexivity | f_equal; exact IH]. Qed.

Lemma append_assoc (s1 s2 s3 : string) :
  (s1 +:+ s2) +:+ s3 = s1 +:+ (s2 +:+ s3).
Proof. induction s1 as [|c s1 IH]; simpl; [reflexivity | f_equal; exact IH]. Qed.

Lemma is_char_true (a c : ascii) : is_char a c = true <-> a = c.
Proof. apply Ascii.eqb_eq. Qed.

Lemma between_spec (lo hi c : ascii) :
  between lo hi c = true <-> (code lo <= code c <= code hi)%N.
Proof. unfold between. rewrite andb_true_iff, !N.leb_le. tauto. Qed.

End StringFacts.

(* ================================================================== *)
(** * Keyset conditions are built from sanitized values only *)
(* ================================================================== *)

Module SecurityFacts.
Import Security SecuritySpec.

(** ** The matcher against the vocabulary *)

Lemma match_here_spec (p : RegExp) (s : string) :
  match_here p s = true <-> exists w suf, s = w +:+ suf /\ word_of p w.
Proof.
  revert s. induction p as [|cl p IH]; intros s; simpl.
  - split; [intros _ | reflexivity].
    exists "", s. split; [reflexivity | constructor].
  - destruct s as [|c s].
    + split; [discriminate |].
      intros (w & suf & Hs & Hw). destruct w; [inversion Hw | discriminate Hs].
    + rewrite andb_true_iff, IH. split.
      * intros (Hc & w & suf & -> & Hw).
        exists (String c w), suf. split; [reflexivity |].
        constructor; assumption.
      * intros (w & suf & Hs & Hw).
        destruct w as [|c' w]; inversion Hw; subst.
        simpl in Hs. injection Hs as -> ->.
        split; [assumption |]. by exists w, suf.
Qed.

Lemma test_spec (p : RegExp) (s : string) :
  test p s = true <-> exists pre w suf, s = pre +:+ w +:+ suf /\ word_of p w.
Proof.
  induction s as [|c s IH]; simpl; rewrite orb_true_iff, match_here_spec.
  - split.
    + intros [(w & suf & Hs & Hw) | Hf]; [| discriminate].
      by exists "", w, suf.
    + intros (pre & w & suf & Hs & Hw). left.
      destruct pre; [| discriminate]. by exists w, suf.
  - rewrite IH. split.
    + intros [(w & suf & Hs & Hw) | (pre & w & suf & -> & Hw)].
      * by exists "", w, suf.
      * by exists (String c pre), w, suf.
    + intros (pre & w & suf & Hs & Hw). destruct pre as [|c' pre].
      * left. by exists w, suf.
      * right. simpl in Hs. injection Hs as -> ->. by exists pre, w, suf.
Qed.

(** A pattern of literal characters matches exactly its own word. *)
Lemma word_of_literal (sub w : string) :
  word_of (map is_char (String.list_ascii_of_string sub)) w <-> w = sub.
Proof.
  unfold word_of. revert w.
  induction sub as [|a sub IH]; intros w; simpl.
  - split.
    + intros H. destruct w; [reflexivity | inversion H].
    + intros ->. constructor.
  - split.
    + intros H. destruct w as [|c w]; inversion H; subst.
      f_equal; [symmetry; by apply is_char_true | by apply IH].
    + intros ->. simpl. constructor; [by apply is_char_true | by apply IH].
Qed.

Lemma test_literal (sub s : string) :
  test (map is_char (String.list_ascii_of_string sub)) s = true <-> occurs sub s.
Proof.
  rewrite test_spec. unfold occurs. split.
  - intros (pre & w & suf & -> & Hw). apply word_of_literal in Hw as ->.
    by exists pre, suf.
  - intros (pre & suf & ->). exists pre, sub, suf.
    split; [reflexivity | by apply word_of_literal].
Qed.

Lemma is_hex_spec (c : ascii) : is_hex c = true <-> hex_char c.
Proof.
  unfold is_hex, hex_char, is_digit.
  rewrite !orb_true_iff, !between_spec. tauto.
Qed.

Lemma is_x_spec (c : ascii) : is_x c = true <-> (c = "x"%char \/ c = "X"%char).
Proof.
  unfold is_x. rewrite orb_true_iff, !is_char_true. split; intros [?|?]; auto.
Qed.

Lemma test_hex_escape (s : string) :
  test [is_char "\"; is_x; is_hex; is_hex] s = true <-> has_hex_escape s.
Proof.
  rewrite test_spec. unfold has_hex_escape, word_of. split.
  - intros (pre & w & suf & -> & Hw).
    destruct w as [|b [|x [|h1 [|h2 [|? ?]]]]]; simpl in Hw;
      repeat match goal with
             | H : Forall2 _ _ _ |- _ => inversion H; clear H; subst
             end.
    exists pre, x, h1, h2, suf. simpl.
    match goal with H : is_char _ b = true |- _ => apply is_char_true in H as <- end.
    repeat split; try reflexivity;
      [by apply is_x_spec | by apply is_hex_spec | by apply is_hex_spec].
  - intros (pre & x & h1 & h2 & suf & -> & Hx & H1 & H2).
    exists pre, (String "\" (String x (String h1 (String h2 ""))))%string, suf.
    split; [reflexivity |]. simpl.
    constructor; [by apply is_char_true |].
    constructor; [by apply is_x_spec |].
    constructor; [by apply is_hex_spec |].
    constructor; [by apply is_hex_spec | constructor].
Qed.

Lemma isDangerousFreeString_spec (value : string) :
  isDangerousFreeString value = true <-> ~ dangerous value.
Proof.
  unfold isDangerousFreeString, DANGEROUS_FILTER_PATTERNS, dangerous. simpl.
  rewrite <- (test_literal ";"), <- (test_literal "--"), <- (test_literal "/*"),
    <- (test_literal "*/"), <- (test_literal (String "000" "")),
    <- test_hex_escape.
  simpl.
  repeat match goal with
         | |- context [if ?b then _ else _] => destruct b
         end; intuition congruence.
Qed.

Lemma all_chars_spec (cl : CharClass) (s : string) :
  all_chars cl s = true <->
  Forall (fun c => cl c = true) (String.list_ascii_of_string s).
Proof.
  induction s as [|c s IH]; simpl.
  - split; [constructor | reflexivity].
  - rewrite andb_true_iff, IH. split.
    + intros [? ?]. by constructor.
    + intros H. inversion H; subst. by split.
Qed.

Lemma is_name_start_spec (c : ascii) :
  is_name_start c = true <-> (letter c \/ c = "_"%char).
Proof.
  unfold is_name_start, letter, is_lower, is_upper.
  rewrite !orb_true_iff, !between_spec, is_char_true.
  split; intros H; [destruct H as [[?|?]|?] | destruct H as [[?|?]|?]]; auto.
Qed.

Lemma is_name_char_spec (c : ascii) :
  is_name_char c = true <-> (letter c \/ digit c \/ c = "_"%char).
Proof.
  unfold is_name_char, letter, digit, is_lower, is_upper, is_digit.
  rewrite !orb_true_iff, !between_spec, is_char_true.
  split; intros H;
    [destruct H as [[[?|?]|?]|?] | destruct H as [[?|?]|[?|?]]]; auto.
Qed.

Lemma field_name_test_spec (fieldName : string) :
  field_name_test fieldName = true <-> identifier fieldName.
Proof.
  unfold field_name_test, identifier. destruct fieldName as [|c rest].
  - split; [discriminate | intros (? & ? & ? & _); discriminate].
  - rewrite andb_true_iff, is_name_start_spec, all_chars_spec. split.
    + intros [Hc Hrest]. exists c, rest. repeat split; [assumption |].
      eapply Forall_impl; [exact Hrest |].
      intros d Hd. by apply is_name_char_spec.
    + intros (c' & rest' & Heq & Hc & Hrest). injection Heq as <- <-.
      split; [assumption |].
      eapply Forall_impl; [exact Hrest |].
      intros d Hd. by apply is_name_char_spec.
Qed.

Lemma escape_quotes_doubled (value : string) :
  escape_quotes value = doubled value.
Proof.
  induction value as [|c s IH]; [reflexivity |].
  change (escape_quotes (String c s))
    with (if is_char "'" c then String "'" (String "'" (escape_quotes s))
          else String c (escape_quotes s)).
  change (doubled (String c s))
    with ((if Ascii.eqb c "'" then "''" else String c "") +:+ doubled s).
  unfold is_char. rewrite (Ascii.eqb_sym "'" c), IH.
  by destruct (Ascii.eqb c "'").
Qed.

(** ** The two directions of [buildKeysetCondition] *)

Lemma sanitizeFilterValue_valid (value : string) :
  (String.length value <= 100)%nat -> ~ dangerous value ->
  sanitizeFilterValue value =
    {| valid := true; sanitized := doubled value; error := None |}.
Proof.
  intros Hlen Hsafe. unfold sanitizeFilterValue.
  apply isDangerousFreeString_spec in Hsafe. rewrite Hsafe. simpl.
  destruct (Nat.ltb_spec 100 (String.length value)); [lia |].
  by rewrite escape_quotes_doubled.
Qed.

Lemma sanitizeFilterValue_invalid (value : string) :
  ~ ((String.length value <= 100)%nat /\ ~ dangerous value) ->
  valid (sanitizeFilterValue value) = false.
Proof.
  intros Hbad. unfold sanitizeFilterValue.
  destruct (isDangerousFreeString value) eqn:Hsafe; simpl; [| reflexivity].
  destruct (Nat.ltb_spec 100 (String.length value)); [reflexivity |].
  exfalso. apply Hbad. split; [lia | by apply isDangerousFreeString_spec].
Qed.

(** C10.  On a field name that is an identifier and a value of at most 100
    code units without a dangerous pattern, [buildKeysetCondition] returns
    exactly [fieldName op 'v'] with [v] the value with its single quotes
    doubled; on every other field name or value it throws. *)
Theorem buildKeysetCondition_sanitized
    (fieldName : string) (operator : KeysetOperator) (value : string) :
  (acceptable fieldName value ->
   buildKeysetCondition fieldName operator value
   = Return (fieldName +:+ " " +:+ operator_text operator +:+ " '"
               +:+ doubled value +:+ "'"))
  /\ (~ acceptable fieldName value ->
      throws (buildKeysetCondition fieldName operator value)).
Proof.
  unfold acceptable, buildKeysetCondition. split.
  - intros (Hname & Hlen & Hsafe).
    apply field_name_test_spec in Hname. rewrite Hname. simpl.
    by rewrite (sanitizeFilterValue_valid value Hlen Hsafe).
  - intros Hbad.
    destruct (field_name_test fieldName) eqn:Hname; simpl; [| by eexists].
    rewrite sanitizeFilterValue_invalid; [by eexists |].
    intros [Hlen Hsafe]. apply Hbad.
    split; [by apply field_name_test_spec | by split].
Qed.

(** The property at a key with a quote in it, and at a key that tries to
    close the literal and comment out the rest. *)
Lemma buildKeysetCondition_sanitized_witness :
  acceptable "id" "O'Brien"
  /\ buildKeysetCondition "id" gt "O'Brien" = Return "id gt 'O''Brien'"
  /\ ~ acceptable "id" "x' or 1 eq 1 --"
  /\ throws (buildKeysetCondition "id" gt "x' or 1 eq 1 --").
Proof.
  assert (Hok : acceptable "id" "O'Brien").
  { split; [by apply field_name_test_spec |].
    split; [simpl; lia | by apply isDangerousFreeString_spec]. }
  assert (Hbad : ~ acceptable "id" "x' or 1 eq 1 --").
  { intros (_ & _ & Hsafe). apply isDangerousFreeString_spec in Hsafe.
    discriminate Hsafe. }
  split; [exact Hok |].
  split; [exact (proj1 (buildKeysetCondition_sanitized "id" gt "O'Brien") Hok) |].
  split; [exact Hbad |].
  exact (proj2 (buildKeysetCondition_sanitized "id" gt "x' or 1 eq 1 --") Hbad).
Defined.

End SecurityFacts.

(* ================================================================== *)
(** * The page size the parser hands on *)
(* ================================================================== *)

Module ParserFacts.
Import Parser ParserSpec.

(** The parser rejects a query only for its length. *)
Lemma parseODataQuery_total (query : gmap string QueryValue) :
  validateQueryLimits query = None -> returns (parseODataQuery query).
Proof.
  intros Hok. unfold parseODataQuery. rewrite Hok. simpl. by eexists.
Qed.

Lemma parseODataQuery_top (query : gmap string QueryValue)
    (options : ODataQueryOptions.t) :
  parseODataQuery query = Return options ->
  ODataQueryOptions.top options = parse_top (getQueryParam query "$top").
Proof.
  unfold parseODataQuery.
  destruct (truthy (validateQueryLimits query)); [discriminate |].
  intros [= <-]. reflexivity.
Qed.

Lemma parse_top_bounded (v : option string) (t : Z) :
  parse_top v = Some t -> t <= 999.
Proof.
  unfold parse_top, MAX_PAGE_SIZE, DEFAULT_PAGE_SIZE, SC_MAX_PAGE_SIZE.
  repeat case_match; intros; simplify_eq; lia.
Qed.

(** A page size, when there is one, is between 1 and 999. *)
Lemma parse_top_range (v : option string) (t : Z) :
  parse_top v = Some t -> 1 <= t <= 999.
Proof.
  unfold parse_top, MAX_PAGE_SIZE, DEFAULT_PAGE_SIZE, SC_MAX_PAGE_SIZE.
  destruct (truthy v); [| intros [= <-]; lia].
  destruct (parseInt (default "" v)) as [n|]; [| discriminate].
  destruct (Z.ltb_spec 0 n); [| discriminate].
  intros [= <-]. lia.
Qed.

(** The values the property names: ["0"], ["-5"] and ["abc"] give no page
    size, a numeral gives itself up to the cap, and no [$top] gives 999. *)
Lemma parse_top_examples :
  parse_top (Some "0") = None /\ parse_top (Some "-5") = None
  /\ parse_top (Some "abc") = None /\ parse_top (Some "100") = Some 100
  /\ parse_top (Some "1000") = Some 999 /\ parse_top None = Some 999.
Proof. repeat split. Qed.

Lemma parse_top_positive (s : string) (n : Z) :
  positive_integer s n -> parse_top (Some s) = Some (Z.min n 999).
Proof.
  intros [Hparse Hpos]. unfold parse_top.
  destruct s as [|c s]; [discriminate Hparse |].
  cbn [truthy from_option id]. rewrite Hparse.
  destruct (Z.ltb_spec 0 n); [reflexivity | lia].
Qed.

Lemma parse_top_unparsable (s : string) :
  s <> "" -> not_positive_integer s -> parse_top (Some s) = None.
Proof.
  intros Hne Hnot. unfold parse_top.
  destruct s as [|c s]; [congruence |].
  cbn [truthy from_option id].
  destruct (parseInt (String c s)) as [n|] eqn:Hparse; [| reflexivity].
  specialize (Hnot n Hparse).
  destruct (Z.ltb_spec 0 n); [lia | reflexivity].
Qed.

(** C6.  Whenever the parser accepts a query, the page size it returns is at
    most 999: [min n 999] when [$top] parses to a positive integer [n], and
    the default 999 when [$top] is absent. *)
Theorem parseODataQuery_top_capped
    (query : gmap string QueryValue) (options : ODataQueryOptions.t) :
  parseODataQuery query = Return options ->
  (forall t, ODataQueryOptions.top options = Some t -> t <= 999)
  /\ (forall s n, getQueryParam query "$top" = Some s -> positive_integer s n ->
        ODataQueryOptions.top options = Some (Z.min n 999))
  /\ (getQueryParam query "$top" = None ->
        ODataQueryOptions.top options = Some 999).
Proof.
  intros Hparse. rewrite (parseODataQuery_top query options Hparse).
  split; [| split].
  - intros t. apply parse_top_bounded.
  - intros s n -> Hpos. by apply parse_top_positive.
  - intros ->. reflexivity.
Qed.

Lemma parseODataQuery_top_capped_witness :
  exists options,
    parseODataQuery query_top_5000 = Return options
    /\ ODataQueryOptions.top options = Some (Z.min 5000 999).
Proof.
  destruct (parseODataQuery_total query_top_5000 eq_refl) as [options Hparse].
  exists options. split; [exact Hparse |].
  apply (proj1 (proj2 (parseODataQuery_top_capped query_top_5000 options Hparse))
           "5000" 5000); [reflexivity | split; [reflexivity | lia]].
Defined.

(** C9, as stated, fails on [?$top=]: the key is present, its value does not
    parse to a positive integer, and the page size is the default 999. *)
Lemma parseODataQuery_empty_top_default :
  query_top_empty !! "$top" = Some (QString "")
  /\ not_positive_integer ""
  /\ exists options,
       parseODataQuery query_top_empty = Return options
       /\ ODataQueryOptions.top options = Some 999.
Proof.
  split; [reflexivity |].
  split; [intros n; discriminate |].
  destruct (parseODataQuery_total query_top_empty eq_refl) as [options Hparse].
  exists options. split; [exact Hparse |].
  by rewrite (parseODataQuery_top _ _ Hparse).
Qed.

(** C9, amended.  When [$top] is present with a value that is not empty and
    does not parse to a positive integer, the parser leaves the page size
    undefined: neither the default nor the cap applies.  An empty value is
    read as an absent one and gets the default. *)
Theorem parseODataQuery_top_unparsable
    (query : gmap string QueryValue) (s : string)
    (options : ODataQueryOptions.t) :
  parseODataQuery query = Return options ->
  getQueryParam query "$top" = Some s ->
  not_positive_integer s ->
  (s <> "" -> ODataQueryOptions.top options = None)
  /\ (s = "" -> ODataQueryOptions.top options = Some DEFAULT_PAGE_SIZE).
Proof.
  intros Hparse Hget Hnot.
  rewrite (parseODataQuery_top query options Hparse), Hget. split.
  - intros Hne. by apply parse_top_unparsable.
  - intros ->. reflexivity.
Qed.

Lemma parseODataQuery_top_unparsable_witness :
  exists options,
    parseODataQuery query_top_abc = Return options
    /\ ODataQueryOptions.top options = None.
Proof.
  destruct (parseODataQuery_total query_top_abc eq_refl) as [options Hparse].
  exists options. split; [exact Hparse |].
  apply (proj1 (parseODataQuery_top_unparsable query_top_abc "abc" options
                  Hparse eq_refl ltac:(intros n; discriminate)));
    discriminate.
Defined.

End ParserFacts.

(* ================================================================== *)
(** * Every upstream URL asks for the total count *)
(* ================================================================== *)

Module BuildUrlFacts.
Import Client ClientSpec.

Lemma named_true (name : string) (p : string * string) :
  named name p = true <-> fst p = name.
Proof. apply String.eqb_eq. Qed.

Lemma filter_not_named (name : string) (l : list (string * string)) :
  Forall (fun p => fst p <> name)
         (List.filter (fun q => negb (named name q)) l).
Proof.
  induction l as [|p l IH]; simpl; [constructor |].
  destruct (named name p) eqn:Hp; simpl; [exact IH |].
  constructor; [| exact IH].
  intros Heq. apply named_true in Heq. congruence.
Qed.

(** After [set], the name is bound once, to the value given. *)
Lemma params_set_once (name value : string) (l : list (string * string)) :
  exists before after,
    params_set name value l = before ++ (name, value) :: after
    /\ Forall (fun p => fst p <> name) before
    /\ Forall (fun p => fst p <> name) after.
Proof.
  induction l as [|p l (before & after & Heq & Hb & Ha)]; simpl.
  - exists [], []. repeat split; constructor.
  - destruct (named name p) eqn:Hp.
    + apply named_true in Hp. rewrite Hp.
      exists [], (List.filter (fun q => negb (named name q)) l).
      repeat split; [constructor | apply filter_not_named].
    + exists (p :: before), after. rewrite Heq.
      repeat split; [| exact Ha].
      constructor; [| exact Hb].
      intros Hn. apply named_true in Hn. congruence.
Qed.

Lemma join_cons (x : string) (l : list string) :
  join "&" (x :: l) = x +:+ trail l.
Proof.
  destruct l as [|y l]; simpl; [by rewrite append_nil_r | reflexivity].
Qed.

Lemma lead_cons (x : string) (l : list string) :
  lead (x :: l) = x +:+ "&" +:+ lead l.
Proof.
  destruct l as [|y l]; [reflexivity |].
  unfold lead. rewrite (join_cons x (y :: l)). unfold trail.
  by rewrite !append_assoc.
Qed.

Lemma join_middle (l1 : list string) (x : string) (l2 : list string) :
  join "&" (l1 ++ x :: l2) = lead l1 +:+ x +:+ trail l2.
Proof.
  induction l1 as [|a l1 IH].
  - apply join_cons.
  - change ((a :: l1) ++ x :: l2) with (a :: (l1 ++ x :: l2)).
    rewrite join_cons, lead_cons.
    destruct (l1 ++ x :: l2) as [|b l] eqn:Hl.
    + by destruct l1.
    + unfold trail at 1. rewrite IH. by rewrite !append_assoc.
Qed.

Lemma lead_shape (l : list string) :
  lead l = "" \/ exists q, lead l = q +:+ "&".
Proof. destruct l; [by left | right; by eexists]. Qed.

Lemma trail_shape (l : list string) :
  trail l = "" \/ exists q, trail l = "&" +:+ q.
Proof. destruct l; [by left | right; by eexists]. Qed.

Lemma append_not_empty (s1 s2 s3 : string) :
  s2 <> "" -> s1 +:+ s2 +:+ s3 <> "".
Proof.
  intros Hne. destruct s1; simpl; [| discriminate].
  destruct s2; simpl; [congruence | discriminate].
Qed.

Lemma URL_toString_query (u : URL) :
  serialize (searchParams u) <> "" ->
  URL_toString u
  = before_query u +:+ "?" +:+ serialize (searchParams u) +:+ fragment u.
Proof.
  unfold URL_toString. by destruct (serialize (searchParams u)).
Qed.

(** A URL whose parameters request the count says so in its text. *)
Lemma requests_count_href (u : URL) :
  requests_count u -> href_requests_count (URL_toString u) u.
Proof.
  intros (before & after & Heq & _ & _).
  assert (Hq : serialize (searchParams u)
               = lead (map serialize_pair before) +:+ "%24count=true"
                   +:+ trail (map serialize_pair after)).
  { unfold serialize. rewrite Heq, map_app. simpl map. apply join_middle. }
  exists (lead (map serialize_pair before)), (trail (map serialize_pair after)).
  split; [| split; [apply lead_shape | apply trail_shape]].
  rewrite URL_toString_query, Hq.
  - by rewrite !append_assoc.
  - rewrite Hq. by apply append_not_empty.
Qed.

Section BuildUrl.

Context {number : Type}.
Variable number_String : number -> string.
Variable URL_new : string -> completion URL.

Lemma set_if_truthy_frame (name : string) (v : option string) (u : URL) :
  before_query (set_if_truthy name v u) = before_query u
  /\ fragment (set_if_truthy name v u) = fragment u.
Proof. unfold set_if_truthy. by destruct (truthy v). Qed.

Lemma set_if_defined_frame (name : string) (v : option number) (u : URL) :
  before_query (set_if_defined number_String name v u) = before_query u
  /\ fragment (set_if_defined number_String name v u) = fragment u.
Proof. unfold set_if_defined. by destruct v. Qed.

Lemma searchParams_set_count (u : URL) :
  requests_count (searchParams_set "$count" "true" u).
Proof. unfold requests_count. simpl. apply params_set_once. Qed.

(** [buildUrl] fails only where [new URL] does. *)
Lemma buildUrl_throws
    (config : Config) (endpoint : string) (params : ScQueryParams.t number)
    (e : JsError) :
  buildUrl number_String URL_new config endpoint params = Throw e <->
  URL_new (salesCloudBaseUrl config +:+ endpoint) = Throw e.
Proof.
  unfold buildUrl, buildUrl_object.
  destruct (URL_new _); simpl; split; congruence.
Qed.

(** C7.  Whatever the endpoint and the parameters, and whether or not the
    caller asked for a count, the URL that [buildUrl] returns has the query
    parameter [$count] exactly once, with the value [true]. *)
Theorem buildUrl_requests_count
    (config : Config) (endpoint : string) (params : ScQueryParams.t number)
    (url0 : URL) :
  URL_new (salesCloudBaseUrl config +:+ endpoint) = Return url0 ->
  exists url,
    buildUrl_object number_String URL_new config endpoint params = Return url
    /\ buildUrl number_String URL_new config endpoint params
       = Return (URL_toString url)
    /\ requests_count url
    /\ href_requests_count (URL_toString url) url.
Proof.
  intros Hnew. unfold buildUrl, buildUrl_object. rewrite Hnew. simpl.
  eexists. split; [reflexivity |]. split; [reflexivity |].
  split; [| apply requests_count_href]; apply searchParams_set_count.
Qed.

End BuildUrl.

Lemma buildUrl_requests_count_witness :
  buildUrl (pretty : Z -> string) sample_URL_new sample_config
           "/sap/c4c/api/v1/account-service/accounts" sample_params
  = Return ("https://example.crm.cloud.sap/sap/c4c/api/v1/account-service/accounts"
              +:+ "?%24count=true&%24top=999").
Proof.
  destruct (buildUrl_requests_count (pretty : Z -> string) sample_URL_new
              sample_config "/sap/c4c/api/v1/account-service/accounts"
              sample_params _ eq_refl) as (url & Hobj & Hhref & _ & _).
  rewrite Hhref. injection Hobj as <-. reflexivity.
Defined.

End BuildUrlFacts.

(* ================================================================== *)
(** * Retries of the upstream client *)
(* ================================================================== *)

Module FetchFacts.
Import Client ClientSpec.

Section FetchWithRetry.

Variable T : Type.
Variable fetch : string -> Z -> promise (Response T).
Variable config : Config.

Local Abbreviation attempt := (attempt T fetch config).
Local Abbreviation fetchWithRetry := (fetchWithRetry T fetch config).

Lemma try_block_Backoff (url : string) (k ms : Z) :
  try_block T fetch url k = Backoff T ms <->
  k < SC_MAX_RETRIES /\ ms = backoffMs k /\ server_error T fetch url k.
Proof.
  unfold try_block, server_error. split.
  - destruct (fetch url k) as [response|e] eqn:Hf; [| discriminate].
    destruct (ok T response) eqn:Hok; simpl.
    + repeat case_match; discriminate.
    + destruct (Z.leb_spec 500 (status T response)); simpl;
        [| repeat case_match; discriminate].
      destruct (Z.ltb_spec k SC_MAX_RETRIES);
        [| repeat case_match; discriminate].
      intros [= <-]. repeat split; [assumption |]. by exists response.
  - intros (Hk & -> & response & -> & -> & Hst). simpl.
    destruct (Z.leb_spec 500 (status T response)); [| lia].
    destruct (Z.ltb_spec k SC_MAX_RETRIES); [reflexivity | lia].
Qed.

Lemma catch_clause_Backoff (k ms : Z) (e : JsError) :
  catch_clause T config k e = Backoff T ms <->
  k < SC_MAX_RETRIES /\ ms = backoffMs k /\ cls e = ClsTypeError.
Proof.
  unfold catch_clause. split.
  - destruct (cls e); try discriminate.
    destruct (Z.ltb_spec k SC_MAX_RETRIES); [| discriminate].
    intros [= <-]. by repeat split.
  - intros (Hk & -> & ->).
    destruct (Z.ltb_spec k SC_MAX_RETRIES); [reflexivity | lia].
Qed.

(** An attempt is retried exactly when retries are left and the upstream
    answered 5xx or a [TypeError] was caught. *)
Lemma attempt_Backoff_iff (url : string) (k ms : Z) :
  attempt url k = Backoff T ms <->
  k < SC_MAX_RETRIES /\ ms = backoffMs k
  /\ (server_error T fetch url k \/ type_error T fetch url k).
Proof.
  unfold Client.attempt, type_error. split.
  - destruct (try_block T fetch url k) as [data|ms'|e] eqn:Htry.
    + discriminate.
    + intros [= ->]. apply try_block_Backoff in Htry as (Hk & -> & Hs).
      split; [assumption |]. split; [reflexivity | by left].
    + intros (Hk & -> & Hcls)%catch_clause_Backoff.
      split; [assumption |]. split; [reflexivity |]. right. by exists e.
  - intros (Hk & -> & [Hs | (e & Htry & Hcls)]).
    + assert (Htry : try_block T fetch url k = Backoff T (backoffMs k))
        by by apply try_block_Backoff.
      by rewrite Htry.
    + rewrite Htry. by apply catch_clause_Backoff.
Qed.

(** A response below 500 that is not a success, with a body that can be
    read, ends the call with the status in the message. *)
Lemma attempt_client_error (url : string) (k : Z) (response : Response T)
    (errorBody : string) :
  fetch url k = Resolved response ->
  ok T response = false -> status T response < 500 ->
  text T response = Resolved errorBody ->
  attempt url k
  = Raise T (Error ("Sales Cloud API error: " +:+ pretty (status T response))).
Proof.
  intros Hf Hok Hst Htext. unfold Client.attempt, try_block.
  rewrite Hf, Hok, Htext. simpl.
  destruct (Z.leb_spec 500 (status T response)); [lia | reflexivity].
Qed.

(** An aborted request ends the call with the timeout message, whatever
    the number of retries left. *)
Lemma attempt_abort (url : string) (k : Z) (e : JsError) :
  fetch url k = Rejected e -> cls e = ClsAbortError ->
  attempt url k
  = Raise T (Error ("Sales Cloud request timeout after "
                      +:+ pretty (scRequestTimeoutMs config) +:+ "ms")).
Proof.
  intros Hf Hcls. unfold Client.attempt, try_block, catch_clause.
  by rewrite Hf, Hcls.
Qed.

(** The unfolding of [fetchWithRetry] by the outcome of the attempt. *)
Lemma fetchWithRetry_unfold (url : string) (k : Z) :
  fetchWithRetry url k =
  match attempt url k with
  | Data _ data => ([Fetched url k], Resolved data)
  | Raise _ e => ([Fetched url k], Rejected e)
  | Backoff _ ms =>
      (Fetched url k :: Slept ms :: fst (fetchWithRetry url (k + 1)),
       snd (fetchWithRetry url (k + 1)))
  end.
Proof.
  funelim (Client.fetchWithRetry T fetch config url k);
    match goal with H : attempt _ _ = _ |- _ => rewrite H end; reflexivity.
Qed.

(** The call is retried some [n] times; each retried attempt asked for a
    pause, and the last attempt decides the result. *)
Lemma fetchWithRetry_course (url : string) (k : Z) :
  exists n : nat,
    fst (fetchWithRetry url k) = schedule url k n
    /\ (forall i : nat, (i < n)%nat ->
          attempt url (k + Z.of_nat i) = Backoff T (backoffMs (k + Z.of_nat i)))
    /\ ((exists data, attempt url (k + Z.of_nat n) = Data T data
                      /\ snd (fetchWithRetry url k) = Resolved data)
        \/ (exists e, attempt url (k + Z.of_nat n) = Raise T e
                      /\ snd (fetchWithRetry url k) = Rejected e)).
Proof.
  funelim (Client.fetchWithRetry T fetch config url k).
  - exists 0%nat. rewrite Z.add_0_r. simpl.
    split; [reflexivity |]. split; [lia |]. left. by eexists.
  - destruct H as (n & Hlog & Hretried & Hlast).
    assert (Hms : ms = backoffMs retryCount).
    { by destruct (proj1 (attempt_Backoff_iff _ _ _) Hretry) as (_ & ? & _). }
    exists (S n). simpl. rewrite Hlog, Hms.
    split; [reflexivity |]. split.
    + intros [|i] Hi.
      * rewrite Z.add_0_r. by rewrite Hretry, Hms.
      * replace (retryCount + Z.of_nat (S i))
          with (retryCount + 1 + Z.of_nat i) by lia.
        apply Hretried. lia.
    + replace (retryCount + Z.of_nat (S n))
        with (retryCount + 1 + Z.of_nat n) by lia.
      exact Hlast.
  - exists 0%nat. rewrite Z.add_0_r. simpl.
    split; [reflexivity |]. split; [lia |]. right. by eexists.
Qed.

Lemma attempts_schedule (url : string) (k : Z) (n : nat) :
  attempts (schedule url k n) = S n.
Proof.
  revert k. induction n as [|n IH]; intros k; [reflexivity |].
  unfold attempts in *. simpl. by rewrite IH.
Qed.

(** At most [SC_MAX_RETRIES + 1 = 3] requests are sent, with the pauses
    500 ms and 1000 ms between them. *)
Lemma fetchWithRetry_bounded (url : string) :
  exists n : nat,
    fst (fetchWithRetry url 0) = schedule url 0 n
    /\ (n <= 2)%nat
    /\ attempts (fst (fetchWithRetry url 0)) = S n.
Proof.
  destruct (fetchWithRetry_course url 0) as (n & Hlog & Hretried & _).
  exists n. split; [exact Hlog |]. split; [| by rewrite Hlog, attempts_schedule].
  destruct n as [|n]; [lia |].
  specialize (Hretried n ltac:(lia)).
  apply attempt_Backoff_iff in Hretried as (Hk & _).
  unfold SC_MAX_RETRIES in Hk. lia.
Qed.

(** When the call gives up after the last retry, or on a failure that is
    not retried, the promise is rejected. *)
Lemma fetchWithRetry_rejects (url : string) (k : Z) (e : JsError) :
  attempt url k = Raise T e -> snd (fetchWithRetry url k) = Rejected e.
Proof. intros H. by rewrite fetchWithRetry_unfold, H. Qed.

End FetchWithRetry.

(** C8, at an upstream that answers [200 OK] with the body [null]: the
    answer is neither a 5xx response nor a network failure, and yet the call
    is retried twice, after 500 ms and 1000 ms, before the [TypeError] of
    the logging statement is surfaced. *)
Theorem fetchWithRetry_null_body (T : Type) (config : Config) (url : string) :
  fetchWithRetry T (null_upstream T) config url 0
  = ([Fetched url 0; Slept 500; Fetched url 1; Slept 1000; Fetched url 2],
     Rejected (mkError ClsTypeError
                 "Cannot read properties of null (reading 'count')")).
Proof.
  rewrite fetchWithRetry_unfold. cbn.
  rewrite fetchWithRetry_unfold. cbn.
  rewrite fetchWithRetry_unfold. cbn.
  reflexivity.
Qed.

End FetchFacts.

(* ================================================================== *)
(** * Every page request asks for the total count *)
(* ================================================================== *)

Module PageRequestFacts.
Import Client ClientSpec.

Lemma requested_urls_schedule (url : string) (k : Z) (n : nat) :
  Forall (fun u => u = url) (requested_urls (schedule url k n)).
Proof.
  revert k. induction n as [|n IH]; intros k; simpl.
  - by repeat constructor.
  - constructor; [reflexivity | apply IH].
Qed.

Section FetchEntitySet.

Context {number : Type}.
Variable number_String : number -> string.
Variable URL_new : string -> completion URL.
Variable T : Type.
Variable fetch : string -> Z -> promise (Response T).
Variable config : Config.
Variable getEntityBySetName : string -> option EntityDefinition.t.

(** Each request that [fetchEntitySet] sends upstream, first attempt or
    retry, goes to a URL with the parameter [$count=true]. *)
Lemma fetchEntitySet_requests_count
    (entitySetName : string) (queryParams : ScQueryParams.t number) :
  Forall (fun u => exists url, u = URL_toString url /\ requests_count url
                               /\ href_requests_count u url)
         (requested_urls
            (fst (fetchEntitySet number_String URL_new T fetch config
                    getEntityBySetName entitySetName queryParams))).
Proof.
  unfold fetchEntitySet, buildUrl, buildUrl_object.
  destruct (getEntityBySetName entitySetName) as [entity|]; [| constructor].
  destruct (URL_new (salesCloudBaseUrl config
                       +:+ EntityDefinition.endpoint entity))
    as [url0|e]; simpl; [| constructor].
  match goal with
  | |- context [URL_toString ?u] => set (url := u)
  end.
  assert (Hcount : requests_count url)
    by apply BuildUrlFacts.searchParams_set_count.
  destruct (FetchFacts.fetchWithRetry_course T fetch config
              (URL_toString url) 0) as (n & -> & _).
  eapply Forall_impl; [apply requested_urls_schedule |].
  intros u ->. exists url.
  split; [reflexivity |]. split; [exact Hcount |].
  by apply BuildUrlFacts.requests_count_href.
Qed.

End FetchEntitySet.

End PageRequestFacts.

(* ================================================================== *)
(** * The pagination modules as published *)
(* ================================================================== *)

Module PaginationFacts.
Import Keyset PaginationCache CollectionCache PaginationSpec.

Lemma throws_not_returns {A} (c : completion A) : throws c -> ~ returns c.
Proof. intros [e ->] [a Ha]. discriminate Ha. Qed.

Lemma encodeSkiptoken_throws lastRecord entity options secret :
  throws (encodeSkiptoken lastRecord entity options secret).
Proof. by eexists. Qed.

Lemma decodeSkiptoken_throws skiptoken secret :
  throws (decodeSkiptoken skiptoken secret).
Proof. by eexists. Qed.

Lemma determinePaginationStrategy_throws
    requestedSkip skiptoken cachedLastKey cachedPosition entity originalFilter
    secret :
  throws (determinePaginationStrategy requestedSkip skiptoken cachedLastKey
            cachedPosition entity originalFilter secret).
Proof. by eexists. Qed.

Lemma lookupPageBoundary_throws cacheKey skipPosition :
  throws (lookupPageBoundary cacheKey skipPosition).
Proof. by eexists. Qed.

Lemma getCachedCollection_throws entitySetName skip top :
  throws (getCachedCollection entitySetName skip top).
Proof. by eexists. Qed.

(** C1, at the key [K] and the secret [secret]: [encodeSkiptoken] throws, so
    no token is produced that could decode to the payload; and the decoder
    throws on a token instead of returning [null]. *)
Theorem skiptoken_round_trip_fails :
  encodeSkiptoken last_record account plain_options "secret" = Throw not_included
  /\ ~ round_trip last_record account plain_options "secret" payload_K
  /\ decodeSkiptoken "tampered" "secret" <> Return None.
Proof.
  split; [reflexivity |]. split; [| discriminate].
  intros (token & Henc & _). discriminate Henc.
Qed.

(** C2, at a string that is no token: [decodeSkiptoken] throws, where the
    property has it return [null]. *)
Theorem decodeSkiptoken_throws_on_garbage :
  decodeSkiptoken "not-a-token" "secret" = Throw not_included
  /\ ~ returns (decodeSkiptoken "not-a-token" "secret").
Proof.
  split; [reflexivity |]. apply throws_not_returns, decodeSkiptoken_throws.
Qed.

(** C3, at the offset 15000 with no skiptoken and no cached boundary:
    [determinePaginationStrategy] throws, where the property has it return
    the strategy that reports the pagination limit. *)
Theorem determinePaginationStrategy_beyond_ceiling :
  SC_MAX_SKIP <= 15000
  /\ determinePaginationStrategy 15000 None None None account None "secret"
     = Throw not_included
  /\ ~ (exists strategy,
          determinePaginationStrategy 15000 None None None account None "secret"
          = Return strategy /\ limit_exceeded strategy).
Proof.
  split; [unfold SC_MAX_SKIP; lia |]. split; [reflexivity |].
  intros (strategy & Hret & _). discriminate Hret.
Qed.

(** C4, at the offset 15000 with the boundary [K] recorded at 14000: the
    lookup throws, and so does the strategy selection that is handed the
    boundary; no keyset filter and no residual offset come back. *)
Theorem boundary_lookup_fails :
  lookupPageBoundary "k" 15000 = Throw not_included
  /\ determinePaginationStrategy 15000 None (Some "K") (Some 14000) account None
       "secret"
     = Throw not_included.
Proof. split; reflexivity. Qed.

End PaginationFacts.

(* ================================================================== *)
(** * Reads of the collection cache *)
(* ================================================================== *)

Module CollectionFacts.
Import CollectionCache FlatteningCache CollectionSpec.

Section Cache.

Variable nested : string -> list (list (gmap string JsValue)).

Local Abbreviation reachable := (reachable nested).
Local Abbreviation consistent := (consistent nested).
Local Abbreviation serveCollection := (serveCollection nested).
Local Abbreviation triggerCollectionPrefetch :=
  (triggerCollectionPrefetch nested).

Lemma started_consistent (name : string) :
  consistent name (started nested name).
Proof. exists []. by repeat split. Qed.

Lemma tick_consistent (name : string) (w : Walk) :
  consistent name w -> consistent name (tick w).
Proof.
  intros (done & Hnested & Hdata & Hcomplete). unfold tick.
  destruct (parents w) as [|items rest] eqn:Hparents.
  - exists done. simpl. by repeat split.
  - exists (done ++ [items]). simpl. split; [| split].
    + by rewrite <- app_assoc.
    + by rewrite concat_app, Hdata; simpl; rewrite app_nil_r.
    + intros Hc. by destruct (Hcomplete Hc).
Qed.

(** A complete entry is left as it is by its background task. *)
Lemma tick_complete (name : string) (w : Walk) :
  consistent name w -> fetchComplete (entry w) = true -> tick w = w.
Proof.
  intros (done & _ & _ & Hcomplete) Hc.
  destruct (Hcomplete Hc) as (Hparents & Hprogress & Hcount).
  unfold tick. rewrite Hparents.
  destruct w as [[d t f p c] ps]. simpl in *. by subst.
Qed.

(** A complete entry holds the whole flattened collection. *)
Lemma complete_flat (name : string) (w : Walk) :
  consistent name w -> fetchComplete (entry w) = true ->
  data (entry w) = concat (nested name)
  /\ totalCount (entry w) = Z.of_nat (length (concat (nested name))).
Proof.
  intros (done & Hnested & Hdata & Hcomplete) Hc.
  destruct (Hcomplete Hc) as (Hparents & _ & Hcount).
  rewrite Hparents, app_nil_r in Hnested. subst done.
  split; [exact Hdata | by rewrite Hcount, Hdata].
Qed.

Lemma reachable_consistent (caches : gmap string Walk) :
  reachable caches ->
  forall name w, caches !! name = Some w -> consistent name w.
Proof.
  induction 1 as [|caches name' _ IH|caches _ IH]; intros name w Hw.
  - by apply lookup_empty_Some in Hw.
  - unfold FlatteningCache.triggerCollectionPrefetch in Hw.
    destruct (caches !! name') eqn:Hname'; [by apply IH |].
    destruct (decide (name' = name)) as [->|Hne].
    + rewrite lookup_insert_eq in Hw. injection Hw as <-.
      apply started_consistent.
    + rewrite lookup_insert_ne in Hw by done. by apply IH.
  - rewrite lookup_fmap in Hw.
    destruct (caches !! name) as [w'|] eqn:Hw'; [| discriminate].
    injection Hw as <-. by apply tick_consistent, IH.
Qed.

Lemma reachable_elapse (n : nat) (caches : gmap string Walk) :
  reachable caches -> reachable (elapse n caches).
Proof.
  intros Hr. induction n as [|n IH]; [exact Hr |].
  by apply reachable_tick.
Qed.

(** Time does not change a complete entry. *)
Lemma elapse_complete
    (n : nat) (caches : gmap string Walk) (name : string) (w : Walk) :
  reachable caches ->
  caches !! name = Some w -> fetchComplete (entry w) = true ->
  elapse n caches !! name = Some w.
Proof.
  intros Hr Hw Hc. induction n as [|n IH]; [exact Hw |].
  unfold elapse in *. simpl. rewrite lookup_fmap, IH. simpl.
  f_equal. apply (tick_complete name); [| exact Hc].
  by apply (reachable_consistent caches).
Qed.

(** A read that returns data reads a complete entry, and the data is a
    slice of the whole flattened collection. *)
Lemma getCachedCollection_Some
    (caches : gmap string Walk) (name : string) (skip top : Z) (slice : Slice) :
  reachable caches ->
  getCachedCollection caches name skip top = Some slice ->
  exists w,
    caches !! name = Some w /\ fetchComplete (entry w) = true
    /\ slice_data slice
       = take (Z.to_nat top) (drop (Z.to_nat skip) (concat (nested name)))
    /\ slice_totalCount slice = Z.of_nat (length (concat (nested name))).
Proof.
  intros Hr. unfold getCachedCollection.
  destruct (caches !! name) as [w|] eqn:Hw; [| discriminate].
  destruct (fetchComplete (entry w)) eqn:Hc; [| discriminate].
  intros [= <-]. exists w. simpl.
  destruct (complete_flat name w) as [Hdata Hcount];
    [by apply (reachable_consistent caches) | exact Hc |].
  by rewrite Hdata, Hcount.
Qed.

(** The wait ends after some steps of the background tasks, within the
    timeout, and its answer is whether the entry is complete then. *)
Lemma waitForCollectionCache_spec
    (caches : gmap string Walk) (name : string) (timeout : nat) :
  exists n : nat,
    (n <= timeout)%nat
    /\ fst (waitForCollectionCache caches name timeout) = elapse n caches
    /\ snd (waitForCollectionCache caches name timeout)
       = isCollectionCacheComplete (elapse n caches) name
    /\ (snd (waitForCollectionCache caches name timeout) = false ->
        n = timeout).
Proof.
  revert caches. induction timeout as [|timeout IH]; intros caches; simpl.
  - exists 0%nat. destruct (isCollectionCacheComplete caches name) eqn:Hc;
      simpl; by rewrite ?Hc.
  - destruct (isCollectionCacheComplete caches name) eqn:Hc.
    + exists 0%nat. simpl. rewrite Hc. repeat split; [lia | discriminate].
    + destruct (IH (tick <$> caches)) as (n & Hn & Hfst & Hsnd & Hout).
      exists (S n).
      assert (Hshift : elapse (S n) caches = elapse n (tick <$> caches)).
      { unfold elapse. clear. induction n as [|n IHn]; [reflexivity |].
        simpl in *. by rewrite IHn. }
      rewrite Hshift. repeat split; try done; [lia |].
      intros Hf. by rewrite (Hout Hf).
Qed.

Lemma take_take_drop {A} (n m : nat) (l : list A) :
  take n l ++ take m (drop n l) = take (n + m) l.
Proof.
  revert l. induction n as [|n IH]; intros [|x l]; simpl;
    rewrite ?take_nil; try reflexivity.
  by rewrite IH.
Qed.


End Cache.


End CollectionFacts.

(* ================================================================== *)
(** * What keyset conditions and combined filters are made of *)
(* ================================================================== *)

Module FilterFacts.
Import Security SecuritySpec SecurityFacts SecurityUtils FilterSyntax FilterSpec.

(** ** Patterns across a separator *)

Lemma rejects_cons (cl : CharClass) (p : RegExp) (c : ascii) :
  rejects (cl :: p) c = true <-> cl c = false /\ rejects p c = true.
Proof.
  unfold rejects. simpl. rewrite andb_true_iff, negb_true_iff. tauto.
Qed.

Lemma match_here_sep (p : RegExp) (c : ascii) (s1 s2 : string) :
  rejects p c = true ->
  match_here p (s1 +:+ String c s2) = match_here p s1.
Proof.
  revert s1. induction p as [|cl p IH]; intros s1 Hrej; [by destruct s1 |].
  apply rejects_cons in Hrej as [Hc Hp].
  destruct s1 as [|a s1]; simpl.
  - by rewrite Hc.
  - by rewrite IH.
Qed.

Lemma test_empty (p : RegExp) : p <> [] -> test p "" = false.
Proof. by destruct p. Qed.

(** A character that no class accepts cuts the search in two. *)
Lemma test_sep (p : RegExp) (c : ascii) (s1 s2 : string) :
  p <> [] -> rejects p c = true ->
  test p (s1 +:+ String c s2) = test p s1 || test p s2.
Proof.
  intros Hne Hrej. induction s1 as [|a s1 IH].
  - rewrite (test_empty p Hne). simpl.
    destruct p as [|cl p]; [congruence |].
    apply rejects_cons in Hrej as [Hc _]. simpl. by rewrite Hc.
  - change (test p (String a s1 +:+ String c s2))
      with (match_here p (String a s1 +:+ String c s2)
            || test p (s1 +:+ String c s2)).
    rewrite (match_here_sep p c (String a s1) s2 Hrej), IH.
    simpl. by rewrite orb_assoc.
Qed.

Lemma test_cons_rejected (p : RegExp) (c : ascii) (s : string) :
  p <> [] -> rejects p c = true -> test p (String c s) = test p s.
Proof.
  intros Hne Hrej.
  change (String c s) with ("" +:+ String c s).
  by rewrite test_sep, test_empty.
Qed.

(** A pattern whose first class accepts none of the characters of [s] is
    not found in [s]. *)
Lemma test_first_class (cl : CharClass) (p : RegExp) (s : string) :
  all_chars (fun c => negb (cl c)) s = true -> test (cl :: p) s = false.
Proof.
  induction s as [|a s IH]; simpl; [reflexivity |].
  rewrite andb_true_iff, negb_true_iff. intros [-> Hs]. simpl. by apply IH.
Qed.

Lemma dangerous_free_loop_spec (ps : list RegExp) (value : string) :
  dangerous_free_loop ps value = true
  <-> Forall (fun p => test p value = false) ps.
Proof.
  induction ps as [|p ps IH]; simpl.
  - split; [constructor | reflexivity].
  - destruct (test p value) eqn:Hp.
    + split; [discriminate |]. intros H. inversion H; congruence.
    + rewrite IH. split; [by constructor | intros H; by inversion H].
Qed.

(** ** Doubled quotes *)

Lemma match_here_escape (p : RegExp) (s : string) :
  rejects p "'" = true ->
  match_here p (escape_quotes s) = match_here p s.
Proof.
  revert s. induction p as [|cl p IH]; intros s Hrej; [by destruct s |].
  pose proof Hrej as Hrej'. apply rejects_cons in Hrej' as [Hc Hp].
  destruct s as [|a s]; [reflexivity |].
  change (escape_quotes (String a s))
    with (if is_char "'" a then String "'" (String "'" (escape_quotes s))
          else String a (escape_quotes s)).
  destruct (is_char "'" a) eqn:Ha.
  - apply is_char_true in Ha as <-. simpl. by rewrite Hc.
  - simpl. by rewrite IH.
Qed.

(** Doubling the quotes brings no pattern in that was not there. *)
Lemma test_escape (p : RegExp) (s : string) :
  p <> [] -> rejects p "'" = true ->
  test p (escape_quotes s) = test p s.
Proof.
  intros Hne Hrej. induction s as [|a s IH]; [reflexivity |].
  change (escape_quotes (String a s))
    with (if is_char "'" a then String "'" (String "'" (escape_quotes s))
          else String a (escape_quotes s)).
  destruct (is_char "'" a) eqn:Ha.
  - apply is_char_true in Ha as <-.
    rewrite !test_cons_rejected by assumption. exact IH.
  - change (test p (String a (escape_quotes s)))
      with (match_here p (String a (escape_quotes s)) || test p (escape_quotes s)).
    change (test p (String a s)) with (match_here p (String a s) || test p s).
    rewrite IH. f_equal.
    pose proof (match_here_escape p (String a s) Hrej) as Hhere.
    change (escape_quotes (String a s))
      with (if is_char "'" a then String "'" (String "'" (escape_quotes s))
            else String a (escape_quotes s)) in Hhere.
    by rewrite Ha in Hhere.
Qed.

(** ** The keyset condition *)

Lemma all_chars_impl (cl1 cl2 : CharClass) (s : string) :
  (forall c, cl1 c = true -> cl2 c = true) ->
  all_chars cl1 s = true -> all_chars cl2 s = true.
Proof.
  intros Himpl. induction s as [|a s IH]; simpl; [reflexivity |].
  rewrite !andb_true_iff. intros [Ha Hs]. split; [by apply Himpl | by apply IH].
Qed.

Lemma field_name_chars (fieldName : string) :
  field_name_test fieldName = true -> all_chars is_name_char fieldName = true.
Proof.
  destruct fieldName as [|c rest]; [discriminate |].
  unfold field_name_test. simpl. rewrite !andb_true_iff. intros [Hc Hrest].
  split; [| exact Hrest].
  unfold is_name_start in Hc. unfold is_name_char.
  rewrite !orb_true_iff in *. tauto.
Qed.

(** What [buildKeysetCondition] returns, when it returns. *)
Lemma buildKeysetCondition_Return
    (fieldName : string) (operator : KeysetOperator) (value cond : string) :
  buildKeysetCondition fieldName operator value = Return cond ->
  field_name_test fieldName = true
  /\ isDangerousFreeString value = true
  /\ (String.length value <= 100)%nat
  /\ cond = fieldName +:+ String " " (operator_text operator
               +:+ String " " (String "'" (escape_quotes value +:+ String "'" ""))).
Proof.
  unfold buildKeysetCondition, sanitizeFilterValue.
  destruct (field_name_test fieldName); simpl; [| discriminate].
  destruct (isDangerousFreeString value); simpl; [| discriminate].
  destruct (Nat.ltb_spec 100 (String.length value)); simpl; [discriminate |].
  intros [= <-]. repeat split. lia.
Qed.

(** One pattern, starting with a literal character that no field name
    contains, against the text of a keyset condition. *)
Lemma keyset_condition_pattern
    (a : ascii) (p : RegExp) (fieldName : string) (operator : KeysetOperator)
    (value : string) :
  is_name_char a = false ->
  rejects (is_char a :: p) " " = true ->
  rejects (is_char a :: p) "'" = true ->
  test (is_char a :: p) (operator_text operator) = false ->
  field_name_test fieldName = true ->
  test (is_char a :: p) value = false ->
  test (is_char a :: p)
       (fieldName +:+ String " " (operator_text operator
          +:+ String " " (String "'" (escape_quotes value +:+ String "'" ""))))
  = false.
Proof.
  intros Ha Hspace Hquote Hop Hname Hvalue.
  assert (Hne : is_char a :: p <> []) by discriminate.
  rewrite (test_sep _ " ") by assumption.
  rewrite (test_sep _ " ") by assumption.
  rewrite (test_cons_rejected _ "'") by assumption.
  rewrite (test_sep _ "'") by assumption.
  rewrite test_escape by assumption.
  rewrite Hop, Hvalue, (test_empty _ Hne), !orb_false_r.
  apply test_first_class.
  apply (all_chars_impl is_name_char); [| by apply field_name_chars].
  intros c Hc. apply negb_true_iff.
  destruct (is_char a c) eqn:Hac; [| reflexivity].
  apply is_char_true in Hac as <-. congruence.
Qed.

(** X1.  Whatever [buildKeysetCondition] returns passes the content check
    that incoming filters are put through: no dangerous pattern is in it. *)
Theorem buildKeysetCondition_content_safe
    (fieldName : string) (operator : KeysetOperator) (value cond : string) :
  buildKeysetCondition fieldName operator value = Return cond ->
  isFilterContentSafe cond = true.
Proof.
  intros (Hname & Hsafe & _ & ->)%buildKeysetCondition_Return.
  unfold isFilterContentSafe, isDangerousFreeString in *.
  apply dangerous_free_loop_spec in Hsafe. apply dangerous_free_loop_spec.
  unfold DANGEROUS_FILTER_PATTERNS in *.
  repeat match goal with
         | H : Forall _ (_ :: _) |- _ => inversion H; clear H; subst
         end.
  repeat (constructor;
          [apply keyset_condition_pattern;
           [reflexivity | reflexivity | reflexivity
            | by destruct operator | assumption | assumption] |]).
  constructor.
Qed.

Lemma buildKeysetCondition_content_safe_witness :
  isFilterContentSafe "id gt 'O''Brien'" = true.
Proof.
  apply (buildKeysetCondition_content_safe "id" gt "O'Brien"). reflexivity.
Defined.

Lemma read_literal_escape (value rest : string) :
  (forall r, rest <> String "'" r) ->
  read_literal (escape_quotes value +:+ String "'" rest) = Some (value, rest).
Proof.
  intros Hrest. induction value as [|a s IH].
  - change (read_literal (String "'" rest) = Some ("", rest)).
    destruct rest as [|c r]; [reflexivity |].
    cbn [read_literal]. rewrite Ascii.eqb_refl.
    destruct (Ascii.eqb_spec c "'") as [->|_]; [by destruct (Hrest r) | reflexivity].
  - change (escape_quotes (String a s))
      with (if is_char "'" a then String "'" (String "'" (escape_quotes s))
            else String a (escape_quotes s)).
    unfold is_char. rewrite (Ascii.eqb_sym "'" a).
    destruct (Ascii.eqb_spec a "'") as [->|Hne].
    + change (read_literal
                (String "'" (String "'" (escape_quotes s +:+ String "'" rest)))
              = Some (String "'" s, rest)).
      cbn [read_literal]. rewrite Ascii.eqb_refl. cbn [read_literal] in IH.
      by rewrite IH.
    + change (read_literal (String a (escape_quotes s +:+ String "'" rest))
              = Some (String a s, rest)).
      cbn [read_literal].
      destruct (Ascii.eqb_spec a "'"); [congruence |].
      cbn [read_literal] in IH. by rewrite IH.
Qed.

(** X2.  In the condition that [buildKeysetCondition] returns, the literal
    after [fieldName op '] reads back, by the rule that two quotes stand for
    one, as exactly the value passed in, and its closing quote is the last
    character of the condition. *)
Theorem buildKeysetCondition_literal
    (fieldName : string) (operator : KeysetOperator) (value cond : string) :
  buildKeysetCondition fieldName operator value = Return cond ->
  exists literal,
    cond = fieldName +:+ " " +:+ operator_text operator +:+ " '" +:+ literal
    /\ read_literal literal = Some (value, "").
Proof.
  intros (_ & _ & _ & ->)%buildKeysetCondition_Return.
  exists (escape_quotes value +:+ String "'" ""). split; [reflexivity |].
  apply read_literal_escape. discriminate.
Qed.

Lemma buildKeysetCondition_literal_witness :
  exists literal,
    "id gt 'x'' or ''1'' eq ''1'"
    = "id" +:+ " " +:+ "gt" +:+ " '" +:+ literal
    /\ read_literal literal = Some ("x' or '1' eq '1", "").
Proof.
  apply (buildKeysetCondition_literal "id" gt "x' or '1' eq '1"). reflexivity.
Defined.

(** ** [validateFilter] *)

Lemma validateFilter_true (filter : string) :
  valid (validateFilter filter) = true
  <-> isFilterContentSafe filter = true
      /\ paren_loop 0 filter = Some 0
      /\ (singleQuotes filter mod 2 = 0)%nat.
Proof.
  unfold validateFilter.
  remember (singleQuotes filter mod 2)%nat as q eqn:Hq. clear Hq.
  destruct (isFilterContentSafe filter); cbn [negb valid];
    [| intuition discriminate].
  destruct (paren_loop 0 filter) as [depth|]; cbn [valid];
    [| intuition discriminate].
  destruct (Z.eqb_spec depth 0) as [->|Hd]; cbn [negb valid];
    [| split; [discriminate | intros (_ & [= ?] & _); congruence]].
  destruct (Nat.eqb_spec q 0) as [Hq|Hq]; cbn [negb valid].
  - by repeat split.
  - split; [discriminate | intros (_ & _ & ?); congruence].
Qed.

Lemma paren_loop_cons (depth : Z) (c : ascii) (rest : string) :
  paren_loop depth (String c rest)
  = if depth_step depth c <? 0 then None
    else paren_loop (depth_step depth c) rest.
Proof. reflexivity. Qed.

Lemma depth_step_occurrences (depth : Z) (c : ascii) :
  depth_step depth c
  = depth + occurrences "(" (String c "") - occurrences ")" (String c "").
Proof.
  unfold depth_step, is_char. cbn [occurrences].
  rewrite (Ascii.eqb_sym "(" c), (Ascii.eqb_sym ")" c).
  destruct (Ascii.eqb_spec c "(") as [->|_]; [cbn; lia |].
  destruct (Ascii.eqb c ")"); lia.
Qed.

Lemma occurrences_cons (a c : ascii) (s : string) :
  occurrences a (String c s) = occurrences a (String c "") + occurrences a s.
Proof. cbn [occurrences]. lia. Qed.

Lemma occurrences_app (a : ascii) (s t : string) :
  occurrences a (s +:+ t) = occurrences a s + occurrences a t.
Proof.
  induction s as [|c s IH]; [reflexivity |].
  change (String c s +:+ t) with (String c (s +:+ t)).
  cbn [occurrences]. rewrite IH. lia.
Qed.

(** The loop ends with a depth exactly when no beginning of the text takes
    the depth below zero; the depth is then the openings less the
    closings. *)
Lemma paren_loop_Some (depth : Z) (s : string) (final : Z) :
  0 <= depth ->
  paren_loop depth s = Some final
  <-> (forall pre suf, s = pre +:+ suf ->
         0 <= depth + occurrences "(" pre - occurrences ")" pre)
      /\ final = depth + occurrences "(" s - occurrences ")" s.
Proof.
  revert depth. induction s as [|c s IH]; intros depth Hd.
  - cbn [paren_loop occurrences]. split.
    + intros [= <-]. split; [| lia].
      intros pre suf Heq. destruct pre; [cbn; lia | discriminate].
    + intros [_ ->]. f_equal. lia.
  - rewrite paren_loop_cons.
    pose proof (depth_step_occurrences depth c) as Hstep.
    destruct (Z.ltb_spec (depth_step depth c) 0) as [Hneg|Hpos].
    + split; [discriminate |]. intros [Hpre _]. exfalso.
      specialize (Hpre (String c "") s eq_refl). lia.
    + rewrite (IH _ Hpos), (occurrences_cons "(" c s), (occurrences_cons ")" c s).
      split; intros [Hpre ->]; (split; [| lia]).
      * intros pre suf Heq. destruct pre as [|c' pre]; [cbn; lia |].
        change (String c' pre +:+ suf) with (String c' (pre +:+ suf)) in Heq.
        injection Heq as <- ->.
        rewrite (occurrences_cons "(" c pre), (occurrences_cons ")" c pre).
        specialize (Hpre pre suf eq_refl). lia.
      * intros pre suf ->. specialize (Hpre (String c pre) suf eq_refl).
        rewrite (occurrences_cons "(" c pre), (occurrences_cons ")" c pre) in Hpre.
        lia.
Qed.

Lemma paren_loop_balanced (s : string) :
  paren_loop 0 s = Some 0 <-> balanced s.
Proof.
  rewrite (paren_loop_Some 0 s 0) by lia. unfold balanced.
  split; intros [Hpre Htotal]; (split; [| lia]);
    intros pre suf Heq; specialize (Hpre pre suf Heq); lia.
Qed.

Lemma singleQuotes_occurrences (s : string) :
  Z.of_nat (singleQuotes s) = occurrences "'" s.
Proof.
  induction s as [|c s IH]; [reflexivity |].
  cbn [singleQuotes occurrences]. unfold is_char.
  rewrite (Ascii.eqb_sym "'" c). destruct (Ascii.eqb c "'"); lia.
Qed.

Lemma singleQuotes_paired (s : string) :
  (singleQuotes s mod 2 = 0)%nat <-> quotes_paired s.
Proof.
  unfold quotes_paired. rewrite <- singleQuotes_occurrences. split.
  - intros Hmod. exists (Z.of_nat (singleQuotes s / 2)).
    pose proof (Nat.div_mod_eq (singleQuotes s) 2). lia.
  - intros [k Hk].
    pose proof (Nat.div_mod_eq (singleQuotes s) 2).
    pose proof (Nat.mod_upper_bound (singleQuotes s) 2). lia.
Qed.

(** X3.  [validateFilter] accepts exactly the filters that hold no
    dangerous pattern, whose parentheses are balanced, and that have an
    even number of single quotes. *)
Theorem validateFilter_accepts (filter : string) :
  valid (validateFilter filter) = true
  <-> ~ dangerous filter /\ balanced filter /\ quotes_paired filter.
Proof.
  rewrite validateFilter_true. unfold isFilterContentSafe.
  by rewrite isDangerousFreeString_spec, paren_loop_balanced, singleQuotes_paired.
Qed.

(** ** [combineFilters] *)

Lemma wrapped_app (f rest : string) :
  wrapped f +:+ rest = String "(" (f +:+ String ")" rest).
Proof.
  unfold wrapped.
  change ("(" +:+ f +:+ ")") with (String "(" (f +:+ String ")" "")).
  change (String "(" (f +:+ String ")" "") +:+ rest)
    with (String "(" ((f +:+ String ")" "") +:+ rest)).
  by rewrite append_assoc.
Qed.

Lemma and_app (rest : string) :
  " and " +:+ rest
  = String " " (String "a" (String "n" (String "d" (String " " rest)))).
Proof. reflexivity. Qed.

(** A pattern that accepts neither parenthesis nor the blank, and is not
    found in [and], is not found in the combination of filters it is not
    found in. *)
Lemma test_joined (p : RegExp) (l : list string) :
  p <> [] ->
  rejects p "(" = true -> rejects p ")" = true -> rejects p " " = true ->
  test p "and" = false ->
  Forall (fun f => test p f = false) l ->
  test p (Client.join " and " (map wrapped l)) = false.
Proof.
  intros Hne Hopen Hclose Hblank Hand Hl.
  induction Hl as [|f l Hf Hl IH]; [by apply test_empty |].
  destruct l as [|g l].
  - change (test p (wrapped f) = false).
    rewrite <- (append_nil_r (wrapped f)), wrapped_app.
    rewrite test_cons_rejected, (test_sep p ")") by assumption.
    by rewrite Hf, test_empty.
  - change (test p (wrapped f +:+ " and "
                      +:+ Client.join " and " (map wrapped (g :: l))) = false).
    rewrite wrapped_app, and_app.
    rewrite test_cons_rejected, (test_sep p ")") by assumption.
    rewrite test_cons_rejected by assumption.
    change (String "a" (String "n" (String "d" (String " " ?r))))
      with ("and" +:+ String " " r).
    rewrite (test_sep p " ") by assumption.
    by rewrite Hf, Hand, IH.
Qed.

Lemma paren_loop_other (depth : Z) (c : ascii) (rest : string) :
  0 <= depth -> is_char "(" c = false -> is_char ")" c = false ->
  paren_loop depth (String c rest) = paren_loop depth rest.
Proof.
  intros Hd Hopen Hclose. rewrite paren_loop_cons. unfold depth_step.
  rewrite Hopen, Hclose. by destruct (Z.ltb_spec depth 0); [lia |].
Qed.

Lemma paren_loop_app (depth : Z) (s t : string) (final : Z) :
  paren_loop depth s = Some final ->
  paren_loop depth (s +:+ t) = paren_loop final t.
Proof.
  revert depth. induction s as [|c s IH]; intros depth.
  - by intros [= ->].
  - change (String c s +:+ t) with (String c (s +:+ t)).
    rewrite !paren_loop_cons.
    destruct (depth_step depth c <? 0); [discriminate | apply IH].
Qed.

Lemma paren_loop_shift (depth k : Z) (s : string) (final : Z) :
  0 <= k ->
  paren_loop depth s = Some final ->
  paren_loop (depth + k) s = Some (final + k).
Proof.
  intros Hk. revert depth. induction s as [|c s IH]; intros depth.
  - by intros [= ->].
  - rewrite !paren_loop_cons.
    assert (Hstep : depth_step (depth + k) c = depth_step depth c + k).
    { unfold depth_step. by repeat case_match; lia. }
    rewrite Hstep.
    destruct (Z.ltb_spec (depth_step depth c) 0); [discriminate |].
    destruct (Z.ltb_spec (depth_step depth c + k) 0); [lia | apply IH].
Qed.

Lemma paren_loop_wrapped (f rest : string) :
  paren_loop 0 f = Some 0 ->
  paren_loop 0 (wrapped f +:+ rest) = paren_loop 0 rest.
Proof.
  intros Hf. rewrite wrapped_app.
  change (paren_loop 0 (String "(" (f +:+ String ")" rest)))
    with (paren_loop 1 (f +:+ String ")" rest)).
  rewrite (paren_loop_app 1 f _ 1) by exact (paren_loop_shift 0 1 f 0 ltac:(lia) Hf).
  reflexivity.
Qed.

Lemma paren_loop_joined (l : list string) :
  Forall (fun f => paren_loop 0 f = Some 0) l ->
  paren_loop 0 (Client.join " and " (map wrapped l)) = Some 0.
Proof.
  intros Hl. induction Hl as [|f l Hf Hl IH]; [reflexivity |].
  destruct l as [|g l].
  - change (paren_loop 0 (wrapped f) = Some 0).
    rewrite <- (append_nil_r (wrapped f)). by rewrite paren_loop_wrapped.
  - change (paren_loop 0 (wrapped f +:+ " and "
                            +:+ Client.join " and " (map wrapped (g :: l)))
            = Some 0).
    rewrite paren_loop_wrapped, and_app by assumption.
    by rewrite !paren_loop_other.
Qed.

Lemma singleQuotes_app (s t : string) :
  singleQuotes (s +:+ t) = (singleQuotes s + singleQuotes t)%nat.
Proof.
  induction s as [|c s IH]; [reflexivity |].
  change (String c s +:+ t) with (String c (s +:+ t)).
  cbn [singleQuotes]. rewrite IH. by destruct (is_char "'" c).
Qed.

Lemma singleQuotes_wrapped (f : string) :
  singleQuotes (wrapped f) = singleQuotes f.
Proof.
  unfold wrapped. rewrite !singleQuotes_app. cbn. lia.
Qed.

Lemma even_sum (a b : nat) :
  (a mod 2 = 0 -> b mod 2 = 0 -> (a + b) mod 2 = 0)%nat.
Proof.
  intros Ha Hb.
  pose proof (Nat.div_mod_eq a 2). pose proof (Nat.div_mod_eq b 2).
  pose proof (Nat.div_mod_eq (a + b) 2).
  pose proof (Nat.mod_upper_bound (a + b) 2). lia.
Qed.

Lemma singleQuotes_joined (l : list string) :
  Forall (fun f => singleQuotes f mod 2 = 0)%nat l ->
  (singleQuotes (Client.join " and " (map wrapped l)) mod 2 = 0)%nat.
Proof.
  intros Hl. induction Hl as [|f l Hf Hl IH]; [reflexivity |].
  destruct l as [|g l].
  - change (singleQuotes (wrapped f) mod 2 = 0)%nat.
    by rewrite singleQuotes_wrapped.
  - change (singleQuotes (wrapped f +:+ " and "
                            +:+ Client.join " and " (map wrapped (g :: l)))
              mod 2 = 0)%nat.
    rewrite !singleQuotes_app, singleQuotes_wrapped.
    apply even_sum; [assumption |]. by apply even_sum.
Qed.

Lemma combineFilters_cases (filters : list string) :
  combineFilters filters = ""
  \/ (exists f, In f filters /\ combineFilters filters = f)
  \/ (exists l, Forall (fun f => In f filters) l
                /\ combineFilters filters
                   = Client.join " and " (map wrapped l)).
Proof.
  unfold combineFilters.
  pose proof (fun f => proj1 (filter_In is_nonEmpty f filters)) as Hin.
  destruct (List.filter is_nonEmpty filters) as [|f [|g l]].
  - by left.
  - right; left. exists f. split; [| reflexivity]. apply Hin. by left.
  - right; right. exists (f :: g :: l). split; [| reflexivity].
    apply Forall_forall. intros x Hx. apply Hin. by apply list_elem_of_In.
Qed.

(** X4.  Filters that each pass [validateFilter] combine into a filter that
    passes it too: wrapping in parentheses and joining with [and] brings in
    no dangerous pattern and keeps parentheses and quotes balanced.  Blank
    filters are dropped. *)
Theorem combineFilters_valid (filters : list string) :
  Forall (fun f => valid (validateFilter f) = true) filters ->
  valid (validateFilter (combineFilters filters)) = true.
Proof.
  intros Hall.
  assert (Hin : forall f, In f filters -> valid (validateFilter f) = true).
  { intros f Hf. rewrite Forall_forall in Hall. apply Hall.
    by apply list_elem_of_In. }
  destruct (combineFilters_cases filters) as [-> | [(f & Hf & ->) | (l & Hl & ->)]].
  - reflexivity.
  - by apply Hin.
  - assert (Hgood : Forall (fun f => valid (validateFilter f) = true) l).
    { eapply Forall_impl; [exact Hl | exact Hin]. }
    apply validateFilter_true. split; [| split].
    + unfold isFilterContentSafe, isDangerousFreeString.
      apply dangerous_free_loop_spec. unfold DANGEROUS_FILTER_PATTERNS.
      repeat (constructor;
              [apply test_joined; try reflexivity; try discriminate;
               eapply Forall_impl; [exact Hgood |];
               intros f (Hsafe & _)%validateFilter_true;
               unfold isFilterContentSafe, isDangerousFreeString in Hsafe;
               apply dangerous_free_loop_spec in Hsafe;
               unfold DANGEROUS_FILTER_PATTERNS in Hsafe;
               repeat match goal with
                      | H : Forall _ (_ :: _) |- _ => inversion H; clear H; subst
                      end; assumption |]).
      constructor.
    + apply paren_loop_joined. eapply Forall_impl; [exact Hgood |].
      by intros f (_ & ? & _)%validateFilter_true.
    + apply singleQuotes_joined. eapply Forall_impl; [exact Hgood |].
      by intros f (_ & _ & ?)%validateFilter_true.
Qed.

Lemma combineFilters_valid_witness :
  combineFilters sample_filters
  = "(status eq 'active') and ((country eq 'DE' or country eq 'AT'))"
  /\ valid (validateFilter (combineFilters sample_filters)) = true.
Proof.
  split; [reflexivity |].
  apply combineFilters_valid. unfold sample_filters.
  repeat constructor.
Defined.

End FilterFacts.

(* ================================================================== *)
(** * Comparing and masking secrets *)
(* ================================================================== *)

Module SecretFacts.
Import SecurityUtils Security.

(** ** [secureCompare] *)

Lemma code_inj (c d : ascii) : code c = code d -> c = d.
Proof.
  unfold code. intros H.
  by rewrite <- (ascii_N_embedding c), <- (ascii_N_embedding d), H.
Qed.

(** The encoding of one code unit can be told from what follows it. *)
Lemma utf8_unit_inj (c d : ascii) (x y : list N) :
  utf8_unit c ++ x = utf8_unit d ++ y -> c = d /\ x = y.
Proof.
  unfold utf8_unit.
  destruct (N.ltb_spec (code c) 128) as [Hc|Hc],
    (N.ltb_spec (code d) 128) as [Hd|Hd]; simpl.
  - intros [= H1 H2]. split; [by apply code_inj | exact H2].
  - intros [= H1 H2]. exfalso.
    assert (192 <= code c)%N by (rewrite H1; apply N.le_add_r). lia.
  - intros [= H1 H2]. exfalso.
    assert (192 <= code d)%N by (rewrite <- H1; apply N.le_add_r). lia.
  - intros [= H1 H2 H3]. split; [| exact H3]. apply code_inj.
    apply N.add_cancel_l in H1, H2.
    rewrite (N.div_mod (code c) 64), (N.div_mod (code d) 64) by discriminate.
    by rewrite H1, H2.
Qed.

Lemma utf8_inj (a b : string) : utf8 a = utf8 b -> a = b.
Proof.
  revert b. induction a as [|c a IH]; intros [|d b]; simpl.
  - reflexivity.
  - unfold utf8_unit. by destruct (code d <? 128)%N.
  - unfold utf8_unit. by destruct (code c <? 128)%N.
  - intros [-> Hab]%utf8_unit_inj. f_equal. by apply IH.
Qed.

Lemma bytes_eqb_eq (x y : list N) : bytes_eqb x y = true <-> x = y.
Proof.
  revert y. induction x as [|a x IH]; intros [|b y]; simpl;
    try (split; [discriminate | congruence]); [tauto |].
  rewrite andb_true_iff, N.eqb_eq, IH. split; [intros [-> ->] | intros [= -> ->]]; done.
Qed.

Lemma padded_length (n : nat) (buffer : list N) :
  (length buffer <= n)%nat -> length (padded n buffer) = n.
Proof.
  intros Hle. unfold padded. rewrite length_app, length_replicate. lia.
Qed.

Lemma padded_full (buffer : list N) : padded (length buffer) buffer = buffer.
Proof. unfold padded. by rewrite Nat.sub_diag, app_nil_r. Qed.

(** The comparison never throws, and it is the equality of strings. *)
Lemma secureCompare_eqb (a b : string) :
  secureCompare a b = Return (String.eqb a b).
Proof.
  unfold secureCompare, timingSafeEqual.
  rewrite !padded_length by lia. rewrite Nat.eqb_refl. simpl. f_equal.
  destruct (String.eqb_spec a b) as [->|Hne].
  - rewrite Nat.max_id, padded_full, Nat.eqb_refl, andb_true_r.
    by apply bytes_eqb_eq.
  - apply andb_false_iff.
    destruct (Nat.eqb_spec (length (utf8 a)) (length (utf8 b))) as [Hlen|_];
      [left | by right].
    rewrite <- Hlen, Nat.max_id, padded_full.
    rewrite Hlen, padded_full.
    destruct (bytes_eqb (utf8 a) (utf8 b)) eqn:Heq; [| reflexivity].
    apply bytes_eqb_eq, utf8_inj in Heq. congruence.
Qed.

(** X5.  On strings of code units below 256, [secureCompare] returns
    [true] on equal strings and [false] on all others, a string and the same
    string followed by null characters included; it never throws. *)
Theorem secureCompare_exact (a b : string) :
  (a = b -> secureCompare a b = Return true)
  /\ (a <> b -> secureCompare a b = Return false).
Proof.
  rewrite secureCompare_eqb. split.
  - intros ->. by rewrite String.eqb_refl.
  - intros Hne. by apply String.eqb_neq in Hne as ->.
Qed.

(** Zero padding does not make a password match its prefix. *)
Lemma secureCompare_exact_witness :
  secureCompare "secret" "secret" = Return true
  /\ secureCompare "secret" (String.append "secret" (String "000" "")) = Return false.
Proof.
  split.
  - by apply (proj1 (secureCompare_exact "secret" "secret")).
  - by apply (proj2 (secureCompare_exact "secret" _)).
Defined.

(** X6.  The basic-auth callback accepts the configured user name with
    the configured password, and throws [Invalid credentials] on every
    other pair (of strings of code units below 256). *)
Theorem validate_exact (username password proxyUsername proxyPassword : string) :
  (username = proxyUsername /\ password = proxyPassword ->
   BasicAuth.validate username password proxyUsername proxyPassword = Return tt)
  /\ (~ (username = proxyUsername /\ password = proxyPassword) ->
      BasicAuth.validate username password proxyUsername proxyPassword
      = Throw (Error "Invalid credentials")).
Proof.
  unfold BasicAuth.validate. rewrite !secureCompare_eqb. simpl.
  destruct (String.eqb_spec username proxyUsername),
    (String.eqb_spec password proxyPassword); simpl; split; tauto || done.
Qed.

Lemma validate_exact_witness :
  BasicAuth.validate "sac" "pw" "sac" "pw" = Return tt
  /\ BasicAuth.validate "sac" "" "sac" "pw" = Throw (Error "Invalid credentials").
Proof.
  split.
  - by apply (proj1 (validate_exact "sac" "pw" "sac" "pw")).
  - apply (proj2 (validate_exact "sac" "" "sac" "pw")). by intros [_ ?].
Defined.

(** ** [maskSensitive] *)

Lemma stars_all (n : nat) : all_chars (is_char "*") (stars n) = true.
Proof. induction n as [|n IH]; [reflexivity | exact IH]. Qed.

Lemma stars_length (n : nat) : String.length (stars n) = n.
Proof. induction n as [|n IH]; simpl; [reflexivity | by rewrite IH]. Qed.

Lemma take_units_prefix (n : nat) (value : string) :
  exists rest,
    value = take_units n value +:+ rest
    /\ String.length (take_units n value) = Nat.min n (String.length value)
    /\ (String.length rest = String.length value - n)%nat.
Proof.
  revert value. induction n as [|n IH]; intros value.
  - exists value. destruct value; repeat split; simpl; lia.
  - destruct value as [|c s].
    + by exists "".
    + destruct (IH s) as (rest & Heq & Hlen & Hrest).
      exists rest. cbn [take_units String.length].
      split; [| split; [rewrite Hlen; lia | exact Hrest]].
      change (String c (take_units n s) +:+ rest)
        with (String c (take_units n s +:+ rest)).
      by rewrite <- Heq.
Qed.

(** X7.  [maskSensitive] shows at most [visibleChars] leading characters
    of the value and nothing else of it: the rest of the output is
    asterisks, at most 8 of them unless the whole value is masked, and
    some part of a value that is not empty is always left out. *)
Theorem maskSensitive_hides (value : string) (visibleChars : Z) :
  exists shown rest masked,
    value = shown +:+ rest
    /\ maskSensitive value visibleChars = shown +:+ masked
    /\ Z.of_nat (String.length shown) <= Z.max visibleChars 0
    /\ all_chars (is_char "*") masked = true
    /\ (String.length masked <= 8
        \/ (shown = "" /\ String.length masked = String.length value))%nat
    /\ (value <> "" -> rest <> "").
Proof.
  unfold maskSensitive.
  destruct (Z.leb_spec (Z.of_nat (String.length value)) visibleChars) as [Hshort|Hlong].
  - exists "", value, (stars (String.length value)).
    repeat split; [simpl; lia | apply stars_all | | done].
    right. split; [reflexivity | apply stars_length].
  - destruct (take_units_prefix (Z.to_nat visibleChars) value)
      as (rest & Heq & Hlen & Hrest).
    eexists _, rest, _. split; [exact Heq |]. split; [reflexivity |].
    repeat split.
    + rewrite Hlen. lia.
    + apply stars_all.
    + left. rewrite stars_length. lia.
    + intros Hne ->. cbn [String.length] in Hrest.
      assert (String.length value <> 0)%nat by (by destruct value).
      lia.
Qed.

End SecretFacts.

(* ================================================================== *)
(** * What the parser lets through *)
(* ================================================================== *)

Module ParserOptionsFacts.
Import Parser ParserOptionsSpec.

Lemma over_limit_spec (v : option string) (limit : nat) :
  over_limit v limit = true
  <-> exists s, v = Some s /\ (limit < String.length s)%nat.
Proof.
  unfold over_limit. rewrite andb_true_iff, Nat.ltb_lt. split.
  - intros [Ht Hlen]. destruct v as [s|]; [| discriminate]. by exists s.
  - intros (s & -> & Hlen). split; [| exact Hlen].
    destruct s; [simpl in Hlen; lia | reflexivity].
Qed.

Lemma validateQueryLimits_None (query : gmap string QueryValue) :
  validateQueryLimits query = None
  <-> Forall (fun kl => ~ oversized query (fst kl) (snd kl)) limited_params.
Proof.
  unfold validateQueryLimits, limited_params, oversized.
  unfold Security.MAX_FILTER_LENGTH, Security.MAX_SELECT_LENGTH,
    Security.MAX_ORDERBY_LENGTH, Security.MAX_SKIPTOKEN_LENGTH.
  pose proof (over_limit_spec (getQueryParam query "$filter") 4096) as Hf.
  pose proof (over_limit_spec (getQueryParam query "$select") 2048) as Hs.
  pose proof (over_limit_spec (getQueryParam query "$orderby") 512) as Ho.
  pose proof (over_limit_spec (getQueryParam query "$skiptoken") 1024) as Hk.
  rewrite !Forall_cons, Forall_nil. cbn [fst snd].
  destruct (over_limit (getQueryParam query "$filter") 4096);
    [split; [discriminate | tauto] |].
  destruct (over_limit (getQueryParam query "$select") 2048);
    [split; [discriminate | tauto] |].
  destruct (over_limit (getQueryParam query "$orderby") 512);
    [split; [discriminate | tauto] |].
  destruct (over_limit (getQueryParam query "$skiptoken") 1024);
    [split; [discriminate | tauto] |].
  split; [intros _ | reflexivity].
  repeat split; intros H;
    [apply Hf in H | apply Hs in H | apply Ho in H | apply Hk in H];
    discriminate.
Qed.

Lemma validateQueryLimits_Some (query : gmap string QueryValue) :
  validateQueryLimits query <> None
  <-> Exists (fun kl => oversized query (fst kl) (snd kl)) limited_params.
Proof.
  unfold validateQueryLimits, limited_params, oversized.
  unfold Security.MAX_FILTER_LENGTH, Security.MAX_SELECT_LENGTH,
    Security.MAX_ORDERBY_LENGTH, Security.MAX_SKIPTOKEN_LENGTH.
  pose proof (over_limit_spec (getQueryParam query "$filter") 4096) as Hf.
  pose proof (over_limit_spec (getQueryParam query "$select") 2048) as Hs.
  pose proof (over_limit_spec (getQueryParam query "$orderby") 512) as Ho.
  pose proof (over_limit_spec (getQueryParam query "$skiptoken") 1024) as Hk.
  rewrite !Exists_cons, Exists_nil. cbn [fst snd].
  destruct (over_limit (getQueryParam query "$filter") 4096);
    [split; [tauto | discriminate] |].
  destruct (over_limit (getQueryParam query "$select") 2048);
    [split; [tauto | discriminate] |].
  destruct (over_limit (getQueryParam query "$orderby") 512);
    [split; [tauto | discriminate] |].
  destruct (over_limit (getQueryParam query "$skiptoken") 1024);
    [split; [tauto | discriminate] |].
  split; [congruence |].
  intros [H | [H | [H | [H | []]]]];
    [apply Hf in H | apply Hs in H | apply Ho in H | apply Hk in H];
    discriminate.
Qed.

Lemma validateQueryLimits_message (query : gmap string QueryValue) (msg : string) :
  validateQueryLimits query = Some msg -> msg <> "".
Proof.
  unfold validateQueryLimits. repeat case_match; intros [= <-]; discriminate.
Qed.

(** X8.  The parser throws exactly on a query in which [$filter],
    [$select], [$orderby] or [$skiptoken] is longer than 4096, 2048, 512 or
    1024 code units; every other query object is parsed. *)
Theorem parseODataQuery_rejects_oversized (query : gmap string QueryValue) :
  (throws (parseODataQuery query)
   <-> Exists (fun kl => oversized query (fst kl) (snd kl)) limited_params)
  /\ (returns (parseODataQuery query)
      <-> Forall (fun kl => ~ oversized query (fst kl) (snd kl)) limited_params).
Proof.
  rewrite <- validateQueryLimits_None, <- validateQueryLimits_Some.
  unfold parseODataQuery, throws, returns.
  destruct (validateQueryLimits query) as [msg|] eqn:Hv.
  - pose proof (validateQueryLimits_message query msg Hv) as Hmsg.
    destruct msg; [congruence |]. simpl.
    split; split; try done; [by eexists | by intros [? ?]].
  - simpl. split; split; try done; [by intros [? ?] | by eexists].
Qed.

Lemma parseODataQuery_Return (query : gmap string QueryValue)
    (options : ODataQueryOptions.t) :
  parseODataQuery query = Return options ->
  validateQueryLimits query = None
  /\ ODataQueryOptions.filter options = when_truthy (getQueryParam query "$filter")
  /\ ODataQueryOptions.orderby options = when_truthy (getQueryParam query "$orderby")
  /\ ODataQueryOptions.skiptoken options
     = when_truthy (getQueryParam query "$skiptoken")
  /\ ODataQueryOptions.skip options = parse_skip (getQueryParam query "$skip")
  /\ ODataQueryOptions.count options = parse_count (getQueryParam query "$count")
  /\ ODataQueryOptions.select options = comma_list (getQueryParam query "$select")
  /\ ODataQueryOptions.expand options = comma_list (getQueryParam query "$expand").
Proof.
  unfold parseODataQuery.
  destruct (validateQueryLimits query) as [msg|] eqn:Hv.
  - pose proof (validateQueryLimits_message query msg Hv).
    destruct msg; [congruence | discriminate].
  - intros [= <-]. by repeat split.
Qed.

Lemma when_truthy_Some (v : option string) (s : string) :
  when_truthy v = Some s -> v = Some s /\ s <> "".
Proof.
  unfold when_truthy. destruct v as [[|c r]|]; try discriminate.
  intros [= <-]. by split.
Qed.

Lemma when_truthy_iff (v : option string) (s : string) :
  when_truthy v = Some s <-> v = Some s /\ s <> "".
Proof.
  split; [apply when_truthy_Some |].
  intros [-> Hs]. by destruct s.
Qed.

Lemma within_limit (v : option string) (key : string) (limit : nat)
    (query : gmap string QueryValue) (s : string) :
  v = getQueryParam query key -> ~ oversized query key limit ->
  when_truthy v = Some s -> (String.length s <= limit)%nat.
Proof.
  intros -> Hlimit [Hget _]%when_truthy_Some.
  destruct (Nat.le_gt_cases (String.length s) limit); [assumption |].
  exfalso. apply Hlimit. by exists s.
Qed.

(** X9.  In the options of a parsed query, [filter], [orderby] and
    [skiptoken] are the raw parameters, unchanged: each is set exactly when
    its parameter is there and not empty, to the value of the parameter, and
    is then at most 4096, 512 and 1024 code units long. *)
Theorem parseODataQuery_within_limits
    (query : gmap string QueryValue) (options : ODataQueryOptions.t) :
  parseODataQuery query = Return options ->
  (forall f, ODataQueryOptions.filter options = Some f
             <-> getQueryParam query "$filter" = Some f /\ f <> "")
  /\ (forall f, ODataQueryOptions.filter options = Some f ->
                (String.length f <= 4096)%nat)
  /\ (forall o, ODataQueryOptions.orderby options = Some o
                <-> getQueryParam query "$orderby" = Some o /\ o <> "")
  /\ (forall o, ODataQueryOptions.orderby options = Some o ->
                (String.length o <= 512)%nat)
  /\ (forall t, ODataQueryOptions.skiptoken options = Some t
                <-> getQueryParam query "$skiptoken" = Some t /\ t <> "")
  /\ (forall t, ODataQueryOptions.skiptoken options = Some t ->
                (String.length t <= 1024)%nat).
Proof.
  intros (Hv & -> & -> & -> & _)%parseODataQuery_Return.
  apply validateQueryLimits_None in Hv.
  unfold limited_params in Hv. rewrite !Forall_cons in Hv. cbn [fst snd] in Hv.
  destruct Hv as (Hf & _ & Ho & Hk & _).
  repeat apply conj; intros s; try apply when_truthy_iff.
  - by apply (within_limit _ "$filter" _ query).
  - by apply (within_limit _ "$orderby" _ query).
  - by apply (within_limit _ "$skiptoken" _ query).
Qed.

Lemma parseODataQuery_within_limits_witness :
  exists options,
    parseODataQuery query_orderby = Return options
    /\ ODataQueryOptions.filter options = Some "status eq 'active'"
    /\ ODataQueryOptions.orderby options = Some "name"
    /\ ODataQueryOptions.skiptoken options = Some "abc".
Proof.
  destruct (ParserFacts.parseODataQuery_total query_orderby eq_refl)
    as [options Hparse].
  exists options. split; [exact Hparse |].
  destruct (parseODataQuery_within_limits query_orderby options Hparse)
    as (Hfilter & _ & Horderby & _ & Hskiptoken & _).
  split; [| split].
  - apply Hfilter. by split.
  - apply Horderby. by split.
  - apply Hskiptoken. by split.
Defined.

(** The two literals of the [$count] block as one comparison. *)
Lemma parse_count_eqb (v : option string) :
  parse_count v
  = match v with
    | Some s => if String.eqb (toLowerCase s) "false" then Some false else Some true
    | None => Some true
    end.
Proof.
  unfold parse_count. destruct v as [s|]; [| reflexivity].
  change (toLowerCase <$> Some s) with (Some (toLowerCase s)).
  generalize (toLowerCase s). intros t.
  do 6 (destruct t as [|[[] [] [] [] [] [] [] []] t]; try reflexivity).
Qed.

Lemma parse_count_Some (v : option string) :
  exists b, parse_count v = Some b
            /\ (b = false <-> exists s, v = Some s /\ toLowerCase s = "false").
Proof.
  rewrite parse_count_eqb. destruct v as [s|].
  - destruct (String.eqb_spec (toLowerCase s) "false") as [Hf|Hf].
    + exists false. split; [reflexivity |].
      split; [| reflexivity]. intros _. by exists s.
    + exists true. split; [reflexivity |].
      split; [discriminate |]. intros (s' & [= <-] & Hs). congruence.
  - exists true. split; [reflexivity |].
    split; [discriminate | by intros (? & ? & _)].
Qed.

(** X10.  A parsed query has [skip] set only to a number that [$skip]
    parses to and that is not negative, and it always has [count] set:
    to [false] when [$count] is [false] in any case of letters, to [true]
    otherwise, whatever else [$count] holds. *)
Theorem parseODataQuery_skip_count
    (query : gmap string QueryValue) (options : ODataQueryOptions.t) :
  parseODataQuery query = Return options ->
  (forall n, ODataQueryOptions.skip options = Some n ->
     0 <= n /\ exists s, getQueryParam query "$skip" = Some s
                         /\ parseInt s = Some n)
  /\ (exists b, ODataQueryOptions.count options = Some b
                /\ (b = false <->
                    exists s, getQueryParam query "$count" = Some s
                              /\ toLowerCase s = "false")).
Proof.
  intros (_ & _ & _ & _ & -> & -> & _)%parseODataQuery_Return.
  split; [| apply parse_count_Some].
  intros n. unfold parse_skip.
  destruct (getQueryParam query "$skip") as [s|]; [| discriminate].
  destruct (truthy (Some s)); [| discriminate]. cbn [from_option id].
  destruct (parseInt s) as [parsed|] eqn:Hparsed; [| discriminate].
  destruct (Z.leb_spec 0 parsed); [| discriminate].
  intros [= <-]. split; [assumption |]. by exists s.
Qed.

Lemma parseODataQuery_skip_count_witness :
  exists options,
    parseODataQuery query_select = Return options
    /\ ODataQueryOptions.skip options = Some 20
    /\ ODataQueryOptions.count options = Some false.
Proof.
  destruct (ParserFacts.parseODataQuery_total query_select eq_refl)
    as [options Hparse].
  exists options. split; [exact Hparse |].
  destruct (parseODataQuery_skip_count query_select options Hparse)
    as [_ (b & Hcount & Hb)].
  apply parseODataQuery_Return in Hparse as (_ & _ & _ & _ & Hskip & _).
  split; [by rewrite Hskip |].
  rewrite Hcount. f_equal. apply Hb. by exists "FALSE".
Defined.

(** ** Trimmed names *)

Lemma string_of_list_app (l1 l2 : list ascii) :
  String.string_of_list_ascii (l1 ++ l2)
  = String.string_of_list_ascii l1 +:+ String.string_of_list_ascii l2.
Proof.
  induction l1 as [|c l1 IH]; [reflexivity |].
  cbn [app String.string_of_list_ascii]. rewrite IH. reflexivity.
Qed.

Lemma list_of_string_app (a b : string) :
  String.list_ascii_of_string (a +:+ b)
  = String.list_ascii_of_string a ++ String.list_ascii_of_string b.
Proof.
  induction a as [|c a IH]; [reflexivity |].
  change (String c a +:+ b) with (String c (a +:+ b)).
  cbn [String.list_ascii_of_string app]. by rewrite IH.
Qed.

Lemma rev_string_app (a b : string) :
  rev_string (a +:+ b) = rev_string b +:+ rev_string a.
Proof.
  unfold rev_string.
  by rewrite list_of_string_app, rev_app_distr, string_of_list_app.
Qed.

Lemma rev_string_involutive (s : string) : rev_string (rev_string s) = s.
Proof.
  unfold rev_string.
  by rewrite String.list_ascii_of_string_of_list_ascii, rev_involutive,
    String.string_of_list_ascii_of_string.
Qed.

Lemma rev_string_cons (c : ascii) (r : string) :
  rev_string (String c r) = rev_string r +:+ String c "".
Proof. exact (rev_string_app (String c "") r). Qed.

Lemma rev_string_snoc (c : ascii) (r : string) :
  rev_string (r +:+ String c "") = String c (rev_string r).
Proof. exact (rev_string_app r (String c "")). Qed.

Lemma trimStart_head (s : string) (c : ascii) (r : string) :
  trimStart s = String c r -> is_space c = false.
Proof.
  induction s as [|a s IH]; [discriminate |].
  cbn [trimStart]. destruct (is_space a) eqn:Ha; [exact IH |].
  by intros [= <- _].
Qed.

Lemma trimStart_suffix (s : string) : exists pre, s = pre +:+ trimStart s.
Proof.
  induction s as [|a s [pre IH]]; [by exists "" |].
  cbn [trimStart]. destruct (is_space a).
  - exists (String a pre).
    change (String a pre +:+ trimStart s) with (String a (pre +:+ trimStart s)).
    by rewrite <- IH.
  - by exists "".
Qed.

(** [trim] leaves no white space at either end. *)
Lemma trim_trimmed (s : string) : trimmed (trim s).
Proof.
  unfold trim, trimmed.
  set (t := trimStart s). set (u := trimStart (rev_string t)).
  split; intros c r Heq.
  - apply (f_equal rev_string) in Heq.
    rewrite rev_string_involutive, rev_string_cons in Heq.
    destruct (trimStart_suffix (rev_string t)) as [pre Hpre].
    fold u in Hpre. rewrite Heq in Hpre.
    apply (f_equal rev_string) in Hpre.
    rewrite rev_string_involutive, <- append_assoc, rev_string_snoc in Hpre.
    by apply (trimStart_head s c _ Hpre).
  - apply (f_equal rev_string) in Heq.
    rewrite rev_string_involutive, rev_string_snoc in Heq.
    by apply (trimStart_head (rev_string t) c _ Heq).
Qed.

(** X11.  The names a parsed query carries in [select] and [expand] have no
    white space at either end. *)
Theorem parseODataQuery_names_trimmed
    (query : gmap string QueryValue) (options : ODataQueryOptions.t) :
  parseODataQuery query = Return options ->
  (forall names, ODataQueryOptions.select options = Some names ->
     Forall trimmed names)
  /\ (forall names, ODataQueryOptions.expand options = Some names ->
       Forall trimmed names).
Proof.
  intros (_ & _ & _ & _ & _ & _ & -> & ->)%parseODataQuery_Return.
  unfold comma_list.
  split; intros names; case_match; try discriminate; intros [= <-];
    apply Forall_forall; intros name (raw & -> & _)%list_elem_of_fmap;
    apply trim_trimmed.
Qed.

Lemma parseODataQuery_names_trimmed_witness :
  exists options,
    parseODataQuery query_select = Return options
    /\ ODataQueryOptions.select options = Some ["name"; "id"]
    /\ Forall trimmed ["name"; "id"].
Proof.
  destruct (ParserFacts.parseODataQuery_total query_select eq_refl)
    as [options Hparse].
  exists options. split; [exact Hparse |].
  assert (Hselect : ODataQueryOptions.select options = Some ["name"; "id"]).
  { by apply parseODataQuery_Return in Hparse as (_ & _ & _ & _ & _ & _ & -> & _). }
  split; [exact Hselect |].
  exact (proj1 (parseODataQuery_names_trimmed query_select options Hparse)
           _ Hselect).
Defined.

End ParserOptionsFacts.

(* ================================================================== *)
(** * Paths into records *)
(* ================================================================== *)

Module ObjectFacts.
Import ObjectUtils ObjectSpec.

Lemma split_nonempty (sep : ascii) (s : string) : split sep s <> [].
Proof.
  destruct s as [|c s]; [discriminate |].
  cbn [split]. destruct (Ascii.eqb c sep); [discriminate |].
  by destruct (split sep s).
Qed.

(** Splitting at a separator splits the list of parts. *)
Lemma split_app (sep : ascii) (p1 p2 : string) :
  split sep (p1 +:+ String sep p2) = split sep p1 ++ split sep p2.
Proof.
  induction p1 as [|c p1 IH].
  - change (split sep (String sep p2) = [EmptyString] ++ split sep p2).
    cbn [split]. by rewrite Ascii.eqb_refl.
  - change (String c p1 +:+ String sep p2) with (String c (p1 +:+ String sep p2)).
    cbn [split]. rewrite IH.
    destruct (Ascii.eqb c sep); [reflexivity |].
    pose proof (split_nonempty sep p1).
    by destruct (split sep p1).
Qed.

(** A path without the separator is one part. *)
Lemma split_one_part (path : string) :
  one_part path -> split "." path = [path].
Proof.
  induction path as [|c path IH]; intros Hone; [reflexivity |].
  cbn [split]. destruct (Ascii.eqb_spec c ".") as [->|Hc].
  - by destruct (Hone "" path).
  - rewrite IH; [reflexivity |].
    intros pre suf ->. by apply (Hone (String c pre) suf).
Qed.

Section GetNestedValue.

Variable Obj : Type.
Variable Prim : Type.
Variable get : Obj -> string -> Unknown Obj Prim.

Lemma walk_not_object (current : Unknown Obj Prim) (parts : list string) :
  parts <> [] ->
  (forall o, current <> Object o) ->
  walk Obj Prim get current parts = Undefined.
Proof.
  intros Hparts Hcur. destruct parts as [|part rest]; [congruence |].
  destruct current; try reflexivity. by destruct (Hcur o).
Qed.

Lemma walk_app (current : Unknown Obj Prim) (parts1 parts2 : list string) :
  parts2 <> [] ->
  walk Obj Prim get current (parts1 ++ parts2)
  = walk Obj Prim get (walk Obj Prim get current parts1) parts2.
Proof.
  intros Hne. revert current.
  induction parts1 as [|part rest IH]; intros current; [reflexivity |].
  cbn [app walk]. destruct current; try apply IH;
    symmetry; by apply walk_not_object.
Qed.

(** X12.  A path of one part reads that property of the object.  A path
    [p1.p2] reads [p2] from what [p1] leads to when that is an object, and
    gives [undefined] when [p1] leads to [null], [undefined] or a value
    that is not an object: the lookup goes on from where the first part
    ended and never reaches into such a value. *)
Theorem getNestedValue_compose (obj : Obj) (p1 p2 : string) :
  (one_part p1 -> getNestedValue Obj Prim get obj p1 = get obj p1)
  /\ getNestedValue Obj Prim get obj (p1 +:+ "." +:+ p2)
     = match getNestedValue Obj Prim get obj p1 with
       | Object o => getNestedValue Obj Prim get o p2
       | _ => Undefined
       end.
Proof.
  unfold getNestedValue. split.
  - intros Hone. by rewrite split_one_part.
  - change (p1 +:+ "." +:+ p2) with (p1 +:+ String "." p2).
    rewrite split_app, walk_app by apply split_nonempty.
    destruct (walk Obj Prim get (Object obj) (split "." p1)) eqn:Hw;
      try reflexivity;
      apply walk_not_object; (apply split_nonempty || discriminate).
Qed.

End GetNestedValue.

Lemma getNestedValue_compose_witness :
  getNestedValue _ _ sample_get account "defaultAddress.country"
  = Primitive "DE"
  /\ getNestedValue _ _ sample_get account "id.country" = Undefined
  /\ getNestedValue _ _ sample_get account "id" = Primitive "A1".
Proof.
  split; [| split].
  - exact (proj2 (getNestedValue_compose _ _ sample_get account
                    "defaultAddress" "country")).
  - exact (proj2 (getNestedValue_compose _ _ sample_get account
                    "id" "country")).
  - apply (proj1 (getNestedValue_compose _ _ sample_get account "id" "")).
    intros pre suf H.
    destruct pre as [|a [|b [|c pre]]]; discriminate H.
Defined.

End ObjectFacts.

(* ================================================================== *)
(** * Waiting with a timeout *)
(* ================================================================== *)

Module AsyncFacts.
Import Async AsyncSpec.

Section WaitWithTimeout.

Variable T : Type.
Variable TTimeout : Type.
Variable timeoutValue : TTimeout.

Local Abbreviation Wait := (Wait T TTimeout).
Local Abbreviation step := (step T TTimeout timeoutValue).
Local Abbreviation executor := (executor T TTimeout).
Local Abbreviation waitWithTimeout := (waitWithTimeout T TTimeout timeoutValue).

(** Once [settled] is set and the timer is off, no callback changes
    anything. *)
Lemma step_settled (w : Wait) (c : Callback T) :
  settled _ _ w = true -> timer_armed _ _ w = false -> step w c = w.
Proof.
  intros Hs Ht. destruct c as [|value]; simpl.
  - unfold on_timer. by rewrite Ht.
  - unfold on_success. by rewrite Hs.
Qed.

Lemma fold_settled (w : Wait) (callbacks : list (Callback T)) :
  settled _ _ w = true -> timer_armed _ _ w = false ->
  fold_left step callbacks w = w.
Proof.
  intros Hs Ht. induction callbacks as [|c cs IH]; [reflexivity |].
  simpl. by rewrite step_settled.
Qed.

Lemma fold_on_success_settled (w : Wait) (values : list T) :
  settled _ _ w = true ->
  fold_left (fun w value => on_success T TTimeout value w) values w = w.
Proof.
  intros Hs. induction values as [|v vs IH]; [reflexivity |].
  simpl. unfold on_success at 2. by rewrite Hs.
Qed.

(** X13.  The first callback decides, whatever is called afterwards and
    however often.  When [registerCallback] returns without calling
    [onSuccess], the promise is resolved with the value handed to
    [onSuccess] first, or, when the timer goes off first, with
    [timeoutValue] after one call of [unregister]; but when that call
    throws, the promise stays pending for good.  When [registerCallback]
    throws, the promise is rejected with what it threw, and a timer that
    goes off fails on [unregister].  When [registerCallback] calls
    [onSuccess] itself, the first value it hands over is the result.
    [unregister] is never called after a success, and at most once. *)
Theorem waitWithTimeout_first_wins
    (r : Registration T) (c : Callback T) (cs : list (Callback T)) :
  (forall value values,
     calls _ r = value :: values ->
     waitWithTimeout r cs
     = {| settled := true; state := Some (Resolved (inl value));
          timer_armed := false;
          unregister := match outcome _ r with
                        | Return u => Some u
                        | Throw _ => None
                        end;
          unregistered := 0; uncaught := [] |})
  /\ (calls _ r = [] ->
      waitWithTimeout r (c :: cs)
      = match outcome _ r, c with
        | Return u, OnSuccess value =>
            {| settled := true; state := Some (Resolved (inl value));
               timer_armed := false; unregister := Some u;
               unregistered := 0; uncaught := [] |}
        | Return (Return u), TimerFires =>
            {| settled := true; state := Some (Resolved (inr timeoutValue));
               timer_armed := false; unregister := Some (Return u);
               unregistered := 1; uncaught := [] |}
        | Return (Throw e), TimerFires =>
            {| settled := true; state := None;
               timer_armed := false; unregister := Some (Throw e);
               unregistered := 1; uncaught := [Thrown e] |}
        | Throw e, OnSuccess value =>
            {| settled := true; state := Some (Rejected e);
               timer_armed := false; unregister := None;
               unregistered := 0; uncaught := [] |}
        | Throw e, TimerFires =>
            {| settled := true; state := Some (Rejected e);
               timer_armed := false; unregister := None;
               unregistered := 0; uncaught := [Uninitialized] |}
        end).
Proof.
  unfold Async.waitWithTimeout, Async.executor. split.
  - intros value values ->. simpl.
    rewrite fold_on_success_settled by reflexivity.
    destruct (outcome _ r) as [u|e]; by apply fold_settled.
  - intros ->. simpl.
    destruct (outcome _ r) as [[u|e]|e]; destruct c as [|value];
      by apply fold_settled.
Qed.

End WaitWithTimeout.

Lemma waitWithTimeout_first_wins_witness :
  state _ _ (waitWithTimeout string bool false patient
               [OnSuccess "ready"; TimerFires; OnSuccess "late"])
  = Some (Resolved (inl "ready"))
  /\ state _ _ (waitWithTimeout string bool false patient
                  [TimerFires; OnSuccess "late"])
     = Some (Resolved (inr false))
  /\ state _ _ (waitWithTimeout string bool false stuck
                  [TimerFires; OnSuccess "late"])
     = None.
Proof.
  split; [| split].
  - by rewrite (proj2 (waitWithTimeout_first_wins string bool false patient
                         (OnSuccess "ready") [TimerFires; OnSuccess "late"])).
  - by rewrite (proj2 (waitWithTimeout_first_wins string bool false patient
                         TimerFires [OnSuccess "late"])).
  - by rewrite (proj2 (waitWithTimeout_first_wins string bool false stuck
                         TimerFires [OnSuccess "late"])).
Defined.

End AsyncFacts.

(* ================================================================== *)
(** * The configuration read from the environment *)
(* ================================================================== *)

Module ConfigFacts.
Import ConfigEnv ConfigSpec.

Section LoadConfig.

Variable env : gmap string string.
Context {number : Type}.
Variable Number_ : option string -> number.
Variable number_truthy : number -> bool.
Variable number_300000 : number.

Lemma getRequiredEnv_spec (key : string) :
  match getRequiredEnv env key with
  | Return v => env !! key = Some v /\ v <> ""
  | Throw e =>
      ~ set_non_empty env key
      /\ e = Error ("Missing required environment variable: " +:+ key)
  end.
Proof.
  unfold getRequiredEnv, set_non_empty.
  destruct (env !! key) as [[|c v]|]; simpl.
  - split; [| reflexivity]. intros (v & [= <-] & Hv). by apply Hv.
  - by split.
  - split; [| reflexivity]. by intros (v & [=] & _).
Qed.

Lemma getOptionalEnvNumber_PORT :
  match getOptionalEnvNumber env "PORT" 3000 with
  | Return p =>
      port_readable env
      /\ match env !! "PORT" with
         | Some (String c s) => parseInt (String c s) = Some p
         | _ => p = 3000
         end
  | Throw _ => ~ port_readable env
  end.
Proof.
  unfold getOptionalEnvNumber, port_readable.
  destruct (env !! "PORT") as [[|c v]|]; simpl; try by split.
  destruct (parseInt (String c v)) as [p|]; [by split | by intros H].
Qed.

Lemma getOptionalEnv_non_empty (key defaultValue : string) :
  defaultValue <> "" -> getOptionalEnv env key defaultValue <> "".
Proof.
  intros Hd. unfold getOptionalEnv.
  by destruct (env !! key) as [[|c v]|].
Qed.

Ltac required key :=
  let H := fresh "H" in
  pose proof (getRequiredEnv_spec key) as H;
  destruct (getRequiredEnv env key) as [?|?]; cbn [bind].

(** X14.  [loadConfig] returns a configuration exactly when each of the six
    required variables is set to a non-empty value and [PORT] is absent,
    empty or starts with a number; in every other environment it throws. *)
Theorem loadConfig_returns_iff :
  returns (loadConfig env Number_ number_truthy number_300000)
  <-> Forall (set_non_empty env) required_vars /\ port_readable env.
Proof.
  unfold loadConfig, required_vars. rewrite !Forall_cons, Forall_nil.
  pose proof getOptionalEnvNumber_PORT as Hport.
  required "SALES_CLOUD_BASE_URL"; [| split; [by intros [? [=]] | tauto]].
  required "SC_USERNAME"; [| split; [by intros [? [=]] | tauto]].
  required "SC_PASSWORD"; [| split; [by intros [? [=]] | tauto]].
  required "PROXY_USERNAME"; [| split; [by intros [? [=]] | tauto]].
  required "PROXY_PASSWORD"; [| split; [by intros [? [=]] | tauto]].
  required "SKIPTOKEN_SECRET"; [| split; [by intros [? [=]] | tauto]].
  destruct (getOptionalEnvNumber env "PORT" 3000) as [p|e]; cbn [bind].
  - split; [| intros _; by eexists].
    intros _. unfold set_non_empty.
    repeat split; try (eexists; eassumption). apply Hport.
  - split; [by intros [? [=]] | tauto].
Qed.

(** X15.  In a configuration that [loadConfig] returns, the upstream and
    proxy credentials and the signing secret are the values of their
    variables, none of them empty; the allowed origin and the environment
    name are not empty either, and the port is 3000 unless [PORT] has a
    non-empty value. *)
Theorem loadConfig_fields (cfg : Config number) :
  loadConfig env Number_ number_truthy number_300000 = Return cfg ->
  (env !! "SC_USERNAME" = Some (scUsername cfg) /\ scUsername cfg <> "")
  /\ (env !! "SC_PASSWORD" = Some (scPassword cfg) /\ scPassword cfg <> "")
  /\ (env !! "PROXY_USERNAME" = Some (proxyUsername cfg)
      /\ proxyUsername cfg <> "")
  /\ (env !! "PROXY_PASSWORD" = Some (proxyPassword cfg)
      /\ proxyPassword cfg <> "")
  /\ (env !! "SKIPTOKEN_SECRET" = Some (skiptokenSecret cfg)
      /\ skiptokenSecret cfg <> "")
  /\ allowedOrigin cfg <> "" /\ nodeEnv cfg <> ""
  /\ (negb (truthy (env !! "PORT")) = true -> port cfg = 3000).
Proof.
  unfold loadConfig.
  pose proof getOptionalEnvNumber_PORT as Hport.
  required "SALES_CLOUD_BASE_URL"; [| discriminate].
  required "SC_USERNAME"; [| discriminate].
  required "SC_PASSWORD"; [| discriminate].
  required "PROXY_USERNAME"; [| discriminate].
  required "PROXY_PASSWORD"; [| discriminate].
  required "SKIPTOKEN_SECRET"; [| discriminate].
  destruct (getOptionalEnvNumber env "PORT" 3000) as [p|e]; cbn [bind];
    [| discriminate].
  intros [= <-]. cbn.
  repeat split; try tauto; try (by apply getOptionalEnv_non_empty).
  destruct Hport as [_ Hport].
  by destruct (env !! "PORT") as [[|c v]|].
Qed.

End LoadConfig.

Lemma loadConfig_fields_witness :
  exists cfg : Config Z,
    loadConfig sample_env (fun _ => 0) (fun n => negb (n =? 0)) 300000
    = Return cfg
    /\ proxyPassword cfg = "s3cret" /\ port cfg = 3000
    /\ salesCloudBaseUrl cfg = "https://example.crm.cloud.sap".
Proof.
  eexists. split; [reflexivity |].
  split; [reflexivity |]. split; [| reflexivity].
  eapply (loadConfig_fields sample_env (fun _ => 0) (fun n => negb (n =? 0))
            300000 _ eq_refl).
  reflexivity.
Defined.

End ConfigFacts.

(* ================================================================== *)
(** * Requests, retries and what the caller gets *)
(* ================================================================== *)

Module RetryFacts.
Import Client ClientSpec ClientEntity RetrySpec.

Section FetchWithRetry.

Variable T : Type.
Variable fetch : string -> Z -> promise (Response T).
Variable config : Config.

Local Abbreviation attempt := (attempt T fetch config).
Local Abbreviation fetchWithRetry := (fetchWithRetry T fetch config).

(** A failure of one of the two kinds is retried while retries are left. *)
Lemma retryable_Backoff (url : string) (k : Z) :
  k < SC_MAX_RETRIES -> retryable T fetch url k ->
  attempt url k = Backoff T (backoffMs k).
Proof.
  intros Hk Hr. apply FetchFacts.attempt_Backoff_iff. by repeat split.
Qed.

(** The call after [n] retried attempts, by the outcome of the next one. *)
Lemma fetchWithRetry_retried (url : string) (n : nat) (k : Z) :
  (forall i : nat, (i < n)%nat ->
     attempt url (k + Z.of_nat i) = Backoff T (backoffMs (k + Z.of_nat i))) ->
  fetchWithRetry url k
  = match attempt url (k + Z.of_nat n) with
    | Data _ data => (schedule url k n, Resolved data)
    | Raise _ e => (schedule url k n, Rejected e)
    | Backoff _ ms =>
        (schedule url k n ++ Slept ms
           :: fst (fetchWithRetry url (k + Z.of_nat n + 1)),
         snd (fetchWithRetry url (k + Z.of_nat n + 1)))
    end.
Proof.
  revert k. induction n as [|n IH]; intros k Hretried.
  - rewrite Z.add_0_r, FetchFacts.fetchWithRetry_unfold.
    by destruct (attempt url k).
  - rewrite FetchFacts.fetchWithRetry_unfold.
    pose proof (Hretried 0%nat ltac:(lia)) as H0.
    rewrite Z.add_0_r in H0. rewrite H0.
    rewrite (IH (k + 1)).
    + replace (k + 1 + Z.of_nat n) with (k + Z.of_nat (S n)) by lia.
      by destruct (attempt url (k + Z.of_nat (S n))).
    + intros i Hi.
      replace (k + 1 + Z.of_nat i) with (k + Z.of_nat (S i)) by lia.
      apply Hretried. lia.
Qed.

Lemma retried_from_0 (url : string) (n : nat) :
  (n <= 2)%nat ->
  (forall i : nat, (i < n)%nat -> retryable T fetch url (Z.of_nat i)) ->
  forall i : nat, (i < n)%nat ->
    attempt url (0 + Z.of_nat i) = Backoff T (backoffMs (0 + Z.of_nat i)).
Proof.
  intros Hn Hr i Hi. rewrite Z.add_0_l.
  apply retryable_Backoff; [unfold SC_MAX_RETRIES; lia | by apply Hr].
Qed.

Lemma success_Data (url : string) (k : Z) (data : T) :
  success T fetch url k data -> attempt url k = Data T data.
Proof.
  intros (response & Hf & Hok & Hjson).
  unfold Client.attempt, try_block. by rewrite Hf, Hok, Hjson.
Qed.

Lemma catch_clause_not_Data (k : Z) (e : JsError) (data : T) :
  catch_clause T config k e <> Data T data.
Proof.
  unfold catch_clause. destruct (cls e); try discriminate.
  by destruct (k <? SC_MAX_RETRIES).
Qed.

Lemma Data_success (url : string) (k : Z) (data : T) :
  attempt url k = Data T data -> success T fetch url k data.
Proof.
  unfold Client.attempt.
  destruct (try_block T fetch url k) as [data'|ms|e] eqn:Htry;
    [| discriminate | intros H; by apply catch_clause_not_Data in H].
  intros [= ->]. revert Htry. unfold try_block, success.
  destruct (fetch url k) as [response|e]; [| discriminate].
  destruct (ok T response) eqn:Hok; simpl.
  - destruct (json T response) as [[|data']|e] eqn:Hjson; try discriminate.
    intros [= ->]. by exists response.
  - repeat case_match; discriminate.
Qed.

(** X16.  When the first [n <= 2] attempts fail with a 5xx answer or a
    [TypeError] and the next attempt is answered with a 2xx status and a
    body that parses, the call resolves to that body, after [n + 1] requests
    and the pauses 500 ms and 1000 ms between them. *)
Theorem fetchWithRetry_recovers (url : string) (n : nat) (data : T) :
  (n <= 2)%nat ->
  (forall i : nat, (i < n)%nat -> retryable T fetch url (Z.of_nat i)) ->
  success T fetch url (Z.of_nat n) data ->
  fetchWithRetry url 0 = (schedule url 0 n, Resolved data).
Proof.
  intros Hn Hr Hs.
  rewrite (fetchWithRetry_retried url n 0) by by apply retried_from_0.
  by rewrite Z.add_0_l, (success_Data _ _ _ Hs).
Qed.

(** A failure of one of the two kinds never yields data. *)
Lemma retryable_not_Data (url : string) (k : Z) (data : T) :
  retryable T fetch url k -> attempt url k <> Data T data.
Proof.
  intros Hr (response & Hf & Hok & Hjson)%Data_success.
  destruct Hr as [(r & Hf' & Hok' & _) | (e & Htry & _)].
  - congruence.
  - revert Htry. unfold try_block. by rewrite Hf, Hok, Hjson.
Qed.

(** An answer that is not a success is not retried once the retries are
    used up; with a body that can be read, its status is in the message. *)
Lemma attempt_last_error (url : string) (k : Z) (response : Response T)
    (errorBody : string) :
  fetch url k = Resolved response ->
  ok T response = false -> SC_MAX_RETRIES <= k ->
  text T response = Resolved errorBody ->
  attempt url k = Raise T (api_error (status T response)).
Proof.
  intros Hf Hok Hk Htext. unfold Client.attempt, try_block.
  rewrite Hf, Hok, Htext. simpl.
  destruct (Z.ltb_spec k SC_MAX_RETRIES); [lia |].
  by rewrite andb_false_r.
Qed.

Lemma attempt_last_type_error (url : string) (k : Z) (e : JsError) :
  try_block T fetch url k = Raise T e -> cls e = ClsTypeError ->
  SC_MAX_RETRIES <= k ->
  attempt url k = Raise T e.
Proof.
  intros Htry Hcls Hk. unfold Client.attempt, catch_clause.
  rewrite Htry, Hcls.
  by destruct (Z.ltb_spec k SC_MAX_RETRIES); [lia |].
Qed.

(** X17.  When all three attempts fail with a 5xx answer or a [TypeError],
    the call sends three requests, pauses 500 ms and 1000 ms between them,
    and rejects: with the status of the third answer in the message when
    that answer was not a success and its body could be read, with the
    [TypeError] itself when the third attempt ended in one. *)
Theorem fetchWithRetry_gives_up (url : string) :
  (forall i : nat, (i <= 2)%nat -> retryable T fetch url (Z.of_nat i)) ->
  fst (fetchWithRetry url 0)
  = [Fetched url 0; Slept 500; Fetched url 1; Slept 1000; Fetched url 2]
  /\ (exists e, snd (fetchWithRetry url 0) = Rejected e)
  /\ (forall response errorBody,
        fetch url 2 = Resolved response -> ok T response = false ->
        text T response = Resolved errorBody ->
        snd (fetchWithRetry url 0) = Rejected (api_error (status T response)))
  /\ (forall e,
        try_block T fetch url 2 = Raise T e -> cls e = ClsTypeError ->
        snd (fetchWithRetry url 0) = Rejected e).
Proof.
  intros Hr.
  rewrite (fetchWithRetry_retried url 2 0)
    by (apply retried_from_0; [lia | intros i Hi; apply Hr; lia]).
  change (0 + Z.of_nat 2) with 2.
  pose proof (Hr 2%nat ltac:(lia)) as Hlast. change (Z.of_nat 2) with 2 in Hlast.
  destruct (attempt url 2) as [data|ms|e] eqn:Hattempt.
  - by destruct (retryable_not_Data _ _ data Hlast).
  - apply attempt_Backoff in Hattempt. unfold SC_MAX_RETRIES in Hattempt. lia.
  - split; [reflexivity |]. split; [by exists e |]. split.
    + intros response errorBody Hf Hok Htext. simpl.
      rewrite (attempt_last_error url 2 response errorBody) in Hattempt;
        [congruence | done.. | unfold SC_MAX_RETRIES; lia | done].
    + intros e' Htry Hcls. simpl.
      rewrite (attempt_last_type_error url 2 e') in Hattempt;
        [congruence | done | done | unfold SC_MAX_RETRIES; lia].
Qed.

(** X18.  An answer with a status below 500 that is not a success is not
    retried: one request is sent, and the call rejects with the status in
    the message. *)
Theorem fetchWithRetry_client_error (url : string) (response : Response T)
    (errorBody : string) :
  fetch url 0 = Resolved response ->
  ok T response = false -> status T response < 500 ->
  text T response = Resolved errorBody ->
  fetchWithRetry url 0
  = ([Fetched url 0], Rejected (api_error (status T response))).
Proof.
  intros Hf Hok Hst Htext.
  rewrite FetchFacts.fetchWithRetry_unfold.
  by rewrite (FetchFacts.attempt_client_error T fetch config url 0 response
                errorBody).
Qed.

(** X19.  A request that is aborted by the timer ends the call, also when
    retries are left: after [n <= 2] retried failures and an aborted
    attempt, the call rejects with the timeout message, and no further
    request is sent. *)
Theorem fetchWithRetry_timeout (url : string) (n : nat) (e : JsError) :
  (n <= 2)%nat ->
  (forall i : nat, (i < n)%nat -> retryable T fetch url (Z.of_nat i)) ->
  fetch url (Z.of_nat n) = Rejected e -> cls e = ClsAbortError ->
  fetchWithRetry url 0 = (schedule url 0 n, Rejected (timeout_error config)).
Proof.
  intros Hn Hr Hf Hcls.
  rewrite (fetchWithRetry_retried url n 0) by by apply retried_from_0.
  rewrite Z.add_0_l.
  by rewrite (FetchFacts.attempt_abort T fetch config url (Z.of_nat n) e).
Qed.

(** X20.  Data that the call resolves to is the parsed body of a 2xx answer
    of the upstream to one of at most three requests, and every request
    before that one failed with a 5xx answer or a [TypeError]. *)
Theorem fetchWithRetry_data_from_upstream (url : string) (data : T) :
  snd (fetchWithRetry url 0) = Resolved data ->
  exists n : nat,
    (n <= 2)%nat
    /\ fst (fetchWithRetry url 0) = schedule url 0 n
    /\ success T fetch url (Z.of_nat n) data
    /\ forall i : nat, (i < n)%nat -> retryable T fetch url (Z.of_nat i).
Proof.
  intros Hres.
  destruct (FetchFacts.fetchWithRetry_course T fetch config url 0)
    as (n & Hlog & Hretried & Hlast).
  exists n.
  assert (Hr : forall i : nat, (i < n)%nat ->
                 Z.of_nat i < SC_MAX_RETRIES /\ retryable T fetch url (Z.of_nat i)).
  { intros i Hi. specialize (Hretried i Hi). rewrite Z.add_0_l in Hretried.
    apply FetchFacts.attempt_Backoff_iff in Hretried as (Hk & _ & Hkind).
    by split. }
  split; [| split; [exact Hlog | split]].
  - destruct n as [|n]; [lia |].
    destruct (Hr n ltac:(lia)) as [Hk _]. unfold SC_MAX_RETRIES in Hk. lia.
  - destruct Hlast as [(data' & Hattempt & Hsnd) | (e & _ & Hsnd)];
      [| congruence].
    rewrite Z.add_0_l in Hattempt. apply Data_success.
    congruence.
  - intros i Hi. by apply Hr.
Qed.

End FetchWithRetry.

Lemma fetchWithRetry_recovers_witness :
  Client.fetchWithRetry string flaky_upstream sample_config "https://sc/accounts" 0
  = ([Fetched "https://sc/accounts" 0; Slept 500;
      Fetched "https://sc/accounts" 1; Slept 1000;
      Fetched "https://sc/accounts" 2],
     Resolved "{}").
Proof.
  apply (fetchWithRetry_recovers string flaky_upstream sample_config
           "https://sc/accounts" 2 "{}").
  - lia.
  - intros [|[|i]] Hi; [| | lia].
    + left. by eexists.
    + right. by eexists.
  - by eexists.
Defined.

Lemma fetchWithRetry_gives_up_witness :
  snd (Client.fetchWithRetry string down_upstream sample_config
         "https://sc/accounts" 0)
  = Rejected (api_error 503).
Proof.
  assert (Hdown : forall i : nat, (i <= 2)%nat ->
            retryable string down_upstream "https://sc/accounts" (Z.of_nat i)).
  { intros i _. left. by eexists. }
  destruct (fetchWithRetry_gives_up string down_upstream sample_config
              "https://sc/accounts" Hdown) as (_ & _ & Hstatus & _).
  exact (Hstatus (answer 503 "Service Unavailable" (Rejected not_json))
           "Service Unavailable" eq_refl eq_refl eq_refl).
Defined.

Lemma fetchWithRetry_client_error_witness :
  Client.fetchWithRetry string (refusing_upstream 403) sample_config
    "https://sc/accounts" 0
  = ([Fetched "https://sc/accounts" 0], Rejected (api_error 403)).
Proof.
  apply (fetchWithRetry_client_error string (refusing_upstream 403)
           sample_config "https://sc/accounts"
           (answer 403 "{}" (Resolved (JsonValue "{}"))) "{}").
  - reflexivity.
  - reflexivity.
  - simpl. lia.
  - reflexivity.
Defined.

Lemma fetchWithRetry_timeout_witness :
  Client.fetchWithRetry string hanging_upstream sample_config
    "https://sc/accounts" 0
  = ([Fetched "https://sc/accounts" 0],
     Rejected (Error "Sales Cloud request timeout after 300000ms")).
Proof.
  apply (fetchWithRetry_timeout string hanging_upstream sample_config
           "https://sc/accounts" 0
           (mkError ClsAbortError "This operation was aborted")).
  - lia.
  - intros i Hi. lia.
  - reflexivity.
  - reflexivity.
Defined.

Lemma fetchWithRetry_data_from_upstream_witness :
  exists n : nat,
    (n <= 2)%nat
    /\ success string flaky_upstream "https://sc/accounts" (Z.of_nat n) "{}".
Proof.
  destruct (fetchWithRetry_data_from_upstream string flaky_upstream
              sample_config "https://sc/accounts" "{}")
    as (n & Hn & _ & Hs & _).
  - rewrite FetchFacts.fetchWithRetry_unfold. cbn.
    rewrite FetchFacts.fetchWithRetry_unfold. cbn.
    rewrite FetchFacts.fetchWithRetry_unfold. cbn.
    reflexivity.
  - by exists n.
Defined.

(** ** [fetchEntity] *)

(** Among the statuses 400 to 499, the message of the error holds the text
    [404] for the status 404 only. *)
Lemma includes_404_status (status : Z) :
  400 <= status <= 499 ->
  includes "404" (message (api_error status)) = (status =? 404).
Proof.
  intros Hst.
  assert (Hall : forallb (fun s => Bool.eqb (includes "404" (message (api_error s)))
                                    (s =? 404))
                   (seqZ 400 100) = true) by (vm_compute; reflexivity).
  rewrite List.forallb_forall in Hall.
  apply Bool.eqb_prop, Hall, list_elem_of_In, elem_of_seqZ. lia.
Qed.

Section FetchEntity.

Variable T : Type.
Variable fetch : string -> Z -> promise (Response T).
Variable config : Config.
Variable getEntityBySetName : string -> option EntityDefinition.t.

(** X21.  When the upstream answers the request for one entity with a 4xx
    status, [fetchEntity] sends that one request; it resolves to [null] for
    the status 404 and rejects with the status in the message for every
    other one. *)
Theorem fetchEntity_client_error
    (entitySetName key : string) (entity : EntityDefinition.t)
    (response : Response T) (errorBody : string) :
  let url := salesCloudBaseUrl config +:+ EntityDefinition.endpoint entity
               +:+ "/" +:+ key in
  getEntityBySetName entitySetName = Some entity ->
  fetch url 0 = Resolved response ->
  400 <= status T response <= 499 ->
  text T response = Resolved errorBody ->
  fetchEntity T fetch config getEntityBySetName entitySetName key
  = ([Fetched url 0],
     if status T response =? 404 then Resolved None
     else Rejected (api_error (status T response))).
Proof.
  intros url Hentity Hf Hst Htext. unfold fetchEntity. rewrite Hentity.
  fold url.
  rewrite FetchFacts.fetchWithRetry_unfold.
  rewrite (FetchFacts.attempt_client_error T fetch config url 0 response
             errorBody); [| exact Hf | unfold ok; lia | lia | exact Htext].
  cbn [fst snd]. fold (api_error (status T response)).
  rewrite includes_404_status by exact Hst.
  by destruct (status T response =? 404).
Qed.

End FetchEntity.

Lemma fetchEntity_client_error_witness :
  fetchEntity string (refusing_upstream 404) sample_config sample_registry
    "Accounts" "11ed-42"
  = ([Fetched "https://example.crm.cloud.sap/sap/c4c/api/v1/account-service/accounts/11ed-42" 0],
     Resolved None)
  /\ snd (fetchEntity string (refusing_upstream 403) sample_config
            sample_registry "Accounts" "11ed-42")
     = Rejected (api_error 403).
Proof.
  split.
  - apply (fetchEntity_client_error string (refusing_upstream 404)
             sample_config sample_registry "Accounts" "11ed-42"
             PaginationSpec.account
             (answer 404 "{}" (Resolved (JsonValue "{}"))) "{}").
    + reflexivity.
    + reflexivity.
    + simpl. lia.
    + reflexivity.
  - rewrite (fetchEntity_client_error string (refusing_upstream 403)
               sample_config sample_registry "Accounts" "11ed-42"
               PaginationSpec.account
               (answer 403 "{}" (Resolved (JsonValue "{}"))) "{}").
    + reflexivity.
    + reflexivity.
    + reflexivity.
    + simpl. lia.
    + reflexivity.
Defined.

(** ** [fetchEntitySet] *)

Section FetchEntitySet.

Context {number : Type}.
Variable number_String : number -> string.
Variable URL_new : string -> completion URL.
Variable T : Type.
Variable fetch : string -> Z -> promise (Response T).
Variable config : Config.
Variable getEntityBySetName : string -> option EntityDefinition.t.

Lemma requested_urls_same (url : string) (k : Z) (n : nat) :
  requested_urls (schedule url k n) = replicate (S n) url.
Proof.
  revert k. induction n as [|n IH]; intros k; [reflexivity |].
  simpl. by rewrite IH.
Qed.

(** X22.  A page request for an entity set that is not in the registry is
    rejected with no request sent.  For a known one, no request is sent
    when the URL cannot be built; otherwise one to three requests are sent,
    every one of them to the URL that [buildUrl] returns for the endpoint of
    the entity set and the query parameters. *)
Theorem fetchEntitySet_requests
    (entitySetName : string) (queryParams : ScQueryParams.t number) :
  let call := fetchEntitySet number_String URL_new T fetch config
                getEntityBySetName entitySetName queryParams in
  match getEntityBySetName entitySetName with
  | None =>
      call = ([], Rejected (Error ("Unknown entity set: " +:+ entitySetName)))
  | Some entity =>
      match buildUrl number_String URL_new config
              (EntityDefinition.endpoint entity) queryParams with
      | Throw e => call = ([], Rejected e)
      | Return url =>
          exists n : nat,
            (n <= 2)%nat
            /\ fst call = schedule url 0 n
            /\ requested_urls (fst call) = replicate (S n) url
      end
  end.
Proof.
  intros call. subst call. unfold fetchEntitySet.
  destruct (getEntityBySetName entitySetName) as [entity|]; [| reflexivity].
  destruct (buildUrl number_String URL_new config
              (EntityDefinition.endpoint entity) queryParams) as [url|e];
    [| reflexivity].
  destruct (FetchFacts.fetchWithRetry_bounded T fetch config url)
    as (n & Hlog & Hn & _).
  exists n. split; [exact Hn |]. split; [exact Hlog |].
  by rewrite Hlog, requested_urls_same.
Qed.

End FetchEntitySet.

End RetryFacts.
